(** * The puzzle session engine of the eHealth puzzle game

    A shallow embedding of [app/src/sessions.py], [app/src/config.py],
    [app/src/database.py] and the endpoints of [app/src/main.py]
    (image selection, shuffle, swap, validate, next level, configuration
    update, score saving, answer checking, registration), followed by the
    properties of the engine.

    Conventions of the embedding.
    - A Python [dict] keyed by strings is a [gmap string _]; the ordered
      level catalog, whose key order the code reads, is an association list.
    - A Python [int] that the client or a file supplies is a [Z]; list
      positions produced by [range(len(...))] are [nat].
    - [None] is [None]; a [datetime] is a [Z] (microseconds).
    - Every source of nondeterminism (clock, [uuid4], [random]) is an explicit
      input of the function that reads it.
    - An exception raised inside an endpoint is a value of [result]; the
      endpoints turn it into the status-500 response their [except] clause
      builds. *)

From Stdlib Require Import ZArith Floats.PrimFloat Floats.FloatOps Floats.SpecFloat.
From stdpp Require Import base numbers option list gmap strings pretty fin_maps sorting.

(* ===================================================================== *)
(** * Python helpers *)
(* ===================================================================== *)

Module py.

(** The exceptions the modelled code can raise. *)
Inductive exn := ZeroDivisionError | ValueError | IndexError | KeyError | OverflowError.

(** A computation that returns or raises. *)
Inductive result (A : Type) :=
| Ok (a : A)
| Raise (e : exn).
Arguments Ok {A} a.
Arguments Raise {A} e.

Definition bind {A B} (m : result A) (k : A → result B) : result B :=
  match m with
  | Ok a => k a
  | Raise e => Raise e
  end.

(** [l[i]] for a non-negative index: [IndexError] past the end. *)
Definition getitem {A} (l : list A) (i : nat) : result A :=
  match l !! i with
  | Some a => Ok a
  | None => Raise IndexError
  end.

(** [for x in xs: s = body(x, s)], leaving the loop at the first exception. *)
Fixpoint for_each {X S} (xs : list X) (body : X → S → result S) (s : S) : result S :=
  match xs with
  | [] => Ok s
  | x :: xs' => bind (body x s) (for_each xs' body)
  end.

(** Truthiness of an optional string: [None] and [""] are falsy. *)
Definition truthy (s : option string) : bool :=
  match s with
  | Some s => bool_decide (s ≠ "")
  | None => false
  end.

(** [a // b] on integers: floor division, [ZeroDivisionError] on [b = 0].
    [Z.div] rounds towards minus infinity for either sign of the divisor, as
    Python does. *)
Definition floordiv (a b : Z) : result Z :=
  if bool_decide (b = 0%Z) then Raise ZeroDivisionError else Ok (a `div` b)%Z.

(** [range(start, stop, step)]: [ValueError] on a zero step. *)
Definition range (start stop step : Z) : result (list Z) :=
  if bool_decide (step = 0)%Z then Raise ValueError
  else
    let count :=
      if bool_decide (0 < step)%Z
      then Z.to_nat ((stop - start + step - 1) `div` step)
      else Z.to_nat ((start - stop - step - 1) `div` (- step)) in
    Ok ((λ k : nat, (start + Z.of_nat k * step)%Z) <$> seq 0 count).

(** [x[i], x[j] = x[j], x[i]]: both reads happen first, then [x[i]] is
    written, then [x[j]]. [None] stands for the [IndexError] of a read past the
    end. *)
Definition swap_items {A} (x : list A) (i j : nat) : option (list A) :=
  match x !! i, x !! j with
  | Some xi, Some xj => Some (<[j := xi]> (<[i := xj]> x))
  | _, _ => None
  end.

(** The loop of [random.shuffle(x)]:
    [for i in reversed(range(1, len(x))): j = randbelow(i + 1); x[i], x[j] = x[j], x[i]].
    [rnd i] is the raw draw used at step [i]; [randbelow (i + 1)] is its
    residue, so every outcome in [0, i] can occur. The indices are always in
    range, so the swap never raises. *)
Fixpoint shuffle_down {A} (rnd : nat → nat) (i : nat) (x : list A) : list A :=
  match i with
  | 0 => x
  | S i' =>
      let j := rnd i mod (i + 1) in
      shuffle_down rnd i' (default x (swap_items x i j))
  end.

Definition random_shuffle {A} (rnd : nat → nat) (x : list A) : list A :=
  shuffle_down rnd (length x - 1) x.

(** [random.choice(seq)] is [seq[randbelow(len(seq))]]; [IndexError] on an
    empty sequence. *)
Definition random_choice {A} (draw : nat) (l : list A) : result A :=
  match l with
  | [] => Raise IndexError
  | _ => getitem l (draw mod length l)
  end.

(** [float(z)] for an integer: the nearest double, ties to even;
    [OverflowError] when the integer is too large. *)
Definition float_of_int (z : Z) : result float :=
  let f := SF2Prim (binary_normalize prec emax z 0 false) in
  if PrimFloat.is_infinity f then Raise OverflowError else Ok f.

(** [a / b] on integers (true division). The quotient of the two doubles is
    the correctly rounded quotient whenever both integers are doubles, which
    covers the operands the code divides. *)
Definition truediv (a b : Z) : result float :=
  if bool_decide (b = 0%Z) then Raise ZeroDivisionError
  else bind (float_of_int a) (λ fa, bind (float_of_int b) (λ fb, Ok (PrimFloat.div fa fb))).

(** [int(x)] for a double: truncation towards zero; [ValueError] on a
    not-a-number and [OverflowError] on an infinity. *)
Definition int_of_float (x : float) : result Z :=
  match Prim2SF x with
  | S754_zero _ => Ok 0%Z
  | S754_infinity _ => Raise OverflowError
  | S754_nan => Raise ValueError
  | S754_finite sign m e =>
      let magnitude :=
        match e with
        | Z0 => Zpos m
        | Zpos k => (Zpos m * 2 ^ Zpos k)%Z
        | Zneg k => (Zpos m `div` 2 ^ Zpos k)%Z
        end in
      Ok (if sign then (- magnitude)%Z else magnitude)
  end.

(** [l[i]] for an integer index: a negative index counts from the end,
    [IndexError] outside [-len(l) .. len(l) - 1]. *)
Definition getitem_int {A} (l : list A) (i : Z) : result A :=
  if bool_decide (0 ≤ i)%Z then getitem l (Z.to_nat i)
  else if bool_decide (- Z.of_nat (length l) ≤ i)%Z
       then getitem l (Z.to_nat (Z.of_nat (length l) + i))
       else Raise IndexError.

(** [c.isspace()] for a code point [c]. *)
Definition isspace (c : N) : bool :=
  bool_decide (9 ≤ c ≤ 13)%N || bool_decide (28 ≤ c ≤ 32)%N
  || bool_decide (c = 133)%N || bool_decide (c = 160)%N || bool_decide (c = 5760)%N
  || bool_decide (8192 ≤ c ≤ 8202)%N || bool_decide (c = 8232)%N
  || bool_decide (c = 8233)%N || bool_decide (c = 8239)%N || bool_decide (c = 8287)%N
  || bool_decide (c = 12288)%N.

(** [s.lstrip()] for a [str] given by its code points. *)
Fixpoint lstrip (s : list N) : list N :=
  match s with
  | [] => []
  | c :: s' => if isspace c then lstrip s' else s
  end.

(** [s.strip()]. *)
Definition strip (s : list N) : list N := reverse (lstrip (reverse (lstrip s))).

End py.

(** [result] is a monad; stdpp's [x ← m; k] sequences computations. *)
#[global] Instance result_ret : MRet py.result := @py.Ok.
#[global] Instance result_bind : MBind py.result := λ A B k m, py.bind m k.

(* ===================================================================== *)
(** * [app/src/sessions.py] *)
(* ===================================================================== *)

(** A tile: [patch_size] rows of [patch_size] intensities. An image is the
    same kind of array. *)
Abbreviation image := (list (list Z)).

Module sessions.

(** The dictionary a session is. [current_shuffled_image_path] is absent
    until the first shuffle; an absent key and a [None] value are both [None]
    here (the code never reads that key). *)
Record session := mk_session {
  original_positions : option (list nat);
  shuffled_positions : option (list nat);
  patches : option (list image);
  current_level : option string;
  current_image_name : option string;
  start_time : option Z;
  current_shuffled_image_path : option string
}.

(** The two module-level dictionaries. *)
Record registry := mk_registry {
  game_sessions : gmap string session;
  session_timeouts : gmap string Z
}.

Definition SESSION_TIMEOUT_MINUTES : Z := 60.

(** [timedelta(minutes=m)] in microseconds. *)
Definition timedelta_minutes (m : Z) : Z := (m * 60 * 1000000)%Z.

Definition new_session : session :=
  {| original_positions := None;
     shuffled_positions := None;
     patches := None;
     current_level := Some "level_1";
     current_image_name := None;
     start_time := None;
     current_shuffled_image_path := None |}.

(** [session_id and session_id in game_sessions]: the identifier when the
    test passes. *)
Definition known (session_id : option string) (r : registry) : option string :=
  match session_id with
  | Some sid =>
      if py.truthy session_id && bool_decide (is_Some (game_sessions r !! sid))
      then Some sid else None
  | None => None
  end.

(** [get_or_create_session(session_id)]. [now] is [datetime.now()], [uuid4]
    the string of the identifier drawn when a session is created. *)
Definition get_or_create_session (now : Z) (uuid4 : string)
    (session_id : option string) (r : registry) : string * registry :=
  match known session_id r with
  | Some sid =>
      (sid,
       {| game_sessions := game_sessions r;
          session_timeouts :=
            <[sid := (now + timedelta_minutes SESSION_TIMEOUT_MINUTES)%Z]>
              (session_timeouts r) |})
  | None =>
      (uuid4,
       {| game_sessions := <[uuid4 := new_session]> (game_sessions r);
          session_timeouts :=
            <[uuid4 := (now + timedelta_minutes SESSION_TIMEOUT_MINUTES)%Z]>
              (session_timeouts r) |})
  end.

Definition get_session (session_id : string) (r : registry) : option session :=
  game_sessions r !! session_id.

(** [clear_session(session_id)]: both [pop(sid, None)]. *)
Definition clear_session (session_id : string) (r : registry) : registry :=
  {| game_sessions := delete session_id (game_sessions r);
     session_timeouts := delete session_id (session_timeouts r) |}.

(** The list [expired] of [cleanup_expired_sessions]. *)
Definition expired (now : Z) (r : registry) : list string :=
  (filter (λ kt : string * Z, (kt.2 < now)%Z) (map_to_list (session_timeouts r))).*1.

(** [cleanup_expired_sessions()]: every identifier of [expired] is popped
    from both dictionaries, one after the other. *)
Definition cleanup_expired_sessions (now : Z) (r : registry) : registry :=
  foldl (λ acc sid, clear_session sid acc) r (expired now r).

End sessions.

(* ===================================================================== *)
(** * [app/src/config.py] *)
(* ===================================================================== *)

Module config.

(** The JSON object of [config.json]; a key may be missing. *)
Record config := mk_config {
  grid_size : option Z;
  countdown_time : option Z
}.

(** [load_config()]: the file may not exist ([None]). *)
Definition load_config (file : option config) : config :=
  match file with
  | None => {| grid_size := Some 4%Z; countdown_time := None |}
  | Some c => c
  end.

Definition get_grid_size (file : option config) : Z :=
  default 4%Z (grid_size (load_config file)).

Definition set_grid_size (size : Z) (file : option config) : option config :=
  Some {| grid_size := Some size; countdown_time := countdown_time (load_config file) |}.

Definition get_countdown_time (file : option config) : Z :=
  default 3%Z (countdown_time (load_config file)).

Definition set_countdown_time (seconds : Z) (file : option config) : option config :=
  Some {| grid_size := grid_size (load_config file); countdown_time := Some seconds |}.

End config.

(* ===================================================================== *)
(** * Arrays: the [numpy] operations of the shuffle and swap endpoints *)
(* ===================================================================== *)

Module np.

(** [a.shape[:2]] of a two-dimensional array. *)
Definition shape (a : image) : nat * nat := (length a, length (default [] (head a))).

(** [np.zeros((h, w))]. *)
Definition zeros (h w : nat) : image := replicate h (replicate w 0%Z).

(** The C-order data of an array. *)
Definition ravel (a : image) : list Z := concat a.

(** Splitting C-order data along a new leading axis: [count] consecutive runs
    of [n] elements. *)
Fixpoint chunks {A} (n count : nat) (l : list A) : list (list A) :=
  match count with
  | 0 => []
  | S c => take n l :: chunks n c (drop n l)
  end.

(** [data.reshape(d0, d1, d2, d3)] as nested lists. *)
Definition reshape4 (d0 d1 d2 d3 : nat) (data : list Z) : list (list (list (list Z))) :=
  chunks d1 d0 (chunks d2 (d0 * d1) (chunks d3 (d0 * d1 * d2) data)).

(** Exchange of the two axes of a [rows x cols] nested list. *)
Fixpoint transpose {A} (cols : nat) (m : list (list A)) : list (list A) :=
  match m with
  | [] => replicate cols []
  | row :: m' => zip_with cons row (transpose cols m')
  end.

(** [a.swapaxes(1, 2)] of a four-dimensional array whose third axis has
    [d2] entries. *)
Definition swapaxes12 (d2 : nat) (a : list (list (list (list Z)))) : list (list (list (list Z))) :=
  transpose d2 <$> a.

(** [img_array.reshape(h // p, p, -1, p).swapaxes(1, 2).reshape(-1, p, p).tolist()].
    The [-1] is the size divided by the product of the other dimensions;
    [reshape] raises [ValueError] when that division is not exact, and
    [h // p] raises on [p = 0]. The final reshape merges the two leading
    axes. *)
Definition to_patches (img_array : image) (p : nat) : py.result (list image) :=
  let '(h, w) := shape img_array in
  let data := ravel img_array in
  if bool_decide (p = 0) then py.Raise py.ZeroDivisionError
  else
    let d0 := h / p in
    let known := d0 * p * p in
    if bool_decide (known = 0) then
      py.Raise py.ValueError
    else if bool_decide (length data mod known ≠ 0) then
      py.Raise py.ValueError
    else
      let d2 := length data / known in
      py.Ok (concat (swapaxes12 d2 (reshape4 d0 p d2 p data))).

(** [img[i:i+p, j:j+p] = patch] for a [p x p] patch that fits. *)
Definition set_block (img : image) (i j p : nat) (patch : image) : image :=
  imap (λ r row,
          if bool_decide (i ≤ r < i + p)
          then take j row ++ default [] (patch !! (r - i)) ++ drop (j + p) row
          else row) img.

(** The body of the loops that compose an image from tiles, shared by the
    two endpoints; the state is the canvas and the counter [index]:
    [[
      patch = patches[positions[index]]
      (swap only) if patch.shape != (patch_size, patch_size): raise ValueError
      canvas[i:i + patch_size, j:j + patch_size] = patch
      index += 1
    ]] *)
Definition place_tile (check_shape : bool) (positions : list nat) (patches : list image)
    (patch_size i j : Z) (st : image * nat) : py.result (image * nat) :=
  k ← py.getitem positions st.2;
  patch ← py.getitem patches k;
  if check_shape &&
     negb (bool_decide (shape patch = (Z.to_nat patch_size, Z.to_nat patch_size)))
  then py.Raise py.ValueError
  else py.Ok (set_block st.1 (Z.to_nat i) (Z.to_nat j) (Z.to_nat patch_size) patch,
              S st.2).

(** The loops themselves:
    [[
      index = 0
      for i in range(0, h, patch_size):
          for j in range(0, w, patch_size):
              ...
    ]] *)
Definition place_tiles (check_shape : bool) (positions : list nat) (patches : list image)
    (patch_size h w : Z) (canvas : image) : py.result image :=
  rows ← py.range 0 h patch_size;
  st ← py.for_each rows (λ i st,
          cols ← py.range 0 w patch_size;
          py.for_each cols (place_tile check_shape positions patches patch_size i) st)
        (canvas, 0);
  py.Ok st.1.

End np.

(* ===================================================================== *)
(** * [app/src/database.py] *)
(* ===================================================================== *)

Module database.

(** A row of the [scores] table. *)
Record score_row := mk_score_row {
  row_player_id : string;
  row_level : string;
  row_score : Z;
  row_timestamp : Z
}.

(** The two tables: [players] keyed by its unique [player_id], holding
    [(username, total_score)], and the rows of [scores] in insertion order. *)
Record db := mk_db {
  players : gmap string (string * Z);
  scores : list score_row
}.

(** [SELECT SUM(score) FROM scores WHERE player_id = ?]. *)
Definition sum_scores (player_id : string) (rows : list score_row) : Z :=
  foldr Z.add 0%Z (row_score <$> filter (λ r, row_player_id r = player_id) rows).

(** [register_player(player_id, username)]: [Some error] on failure. The
    [UNIQUE] constraint on [player_id] makes the insertion fail for an
    identifier already present. *)
Definition register_player (player_id username : string) (d : db) : option string * db :=
  if bool_decide (Exists (λ p : string * (string * Z), p.2.1 = username)
                    (map_to_list (players d))) then
    (Some "Username already exists", d)
  else if bool_decide (is_Some (players d !! player_id)) then
    (Some "UNIQUE constraint failed: players.player_id", d)
  else
    (None, {| players := <[player_id := (username, 0%Z)]> (players d); scores := scores d |}).

(** [save_score(player_id, level, weighted_score)]. [Ok total] is the
    return value [(True, total, None)]; [Raise e] is [(False, None, str(e))],
    reached when [int(weighted_score)] raises, before anything is written. *)
Definition save_score (now : Z) (player_id level : string) (weighted_score : float)
    (d : db) : py.result Z * db :=
  match py.int_of_float weighted_score with
  | py.Raise e => (py.Raise e, d)
  | py.Ok score =>
      let rows := scores d ++ [ {| row_player_id := player_id; row_level := level;
                                    row_score := score; row_timestamp := now |} ] in
      let total := sum_scores player_id rows in
      let players' :=
        match players d !! player_id with
        | Some (username, _) => <[player_id := (username, total)]> (players d)
        | None => players d
        end in
      let total_score :=
        match players' !! player_id with
        | Some (_, t) => t
        | None => 0%Z
        end in
      (py.Ok total_score, {| players := players'; scores := rows |})
  end.

(** The row [get_player_by_username] returns:
    [{"player_id": ..., "username": ..., "total_score": ...}]. *)
Record player := mk_player {
  player_id : string;
  username : string;
  total_score : Z
}.

(** [get_player_by_username(username)]: [fetchone()] of the rows of [players]
    with that user name, in the order the table is scanned. *)
Definition get_player_by_username (name : string) (d : db) : option player :=
  (λ ip : nat * (string * (string * Z)),
     {| player_id := ip.2.1; username := ip.2.2.1; total_score := ip.2.2.2 |})
  <$> list_find (λ p : string * (string * Z), p.2.1 = name) (map_to_list (players d)).

(** The order of [ORDER BY level]: byte-wise comparison of the texts. *)
Definition level_le (a b : string) : Prop := String.leb a b = true.

#[global] Instance level_le_dec a b : Decision (level_le a b).
Proof. unfold level_le. apply _. Defined.

#[global] Instance level_le_total : Total level_le.
Proof. intros a b. apply String.leb_total. Qed.

Definition all_levels : list string := ["level_1"; "level_2"; "level_3"; "level_4"].

(** [get_player_progress(player_id)]: the pair of ["completed_levels"] and
    ["next_level"]. The query is
    [SELECT DISTINCT level FROM scores WHERE player_id = ? ORDER BY level];
    the loop takes the first of [all_levels] that is not completed. *)
Definition get_player_progress (pid : string) (d : db) : list string * string :=
  let completed_levels :=
    merge_sort level_le
      (remove_dups (row_level <$> filter (λ r, row_player_id r = pid) (scores d))) in
  let next_level := snd <$> list_find (λ level, level ∉ completed_levels) all_levels in
  (completed_levels, default "level_1" next_level).

End database.

(* ===================================================================== *)
(** * [app/src/main.py]: the puzzle endpoints *)
(* ===================================================================== *)

Module main.
Import sessions.

(** [image_metadata]: level name to the images of the level, in the key
    order of [questions.json]. The quiz content attached to an image is not
    read by any puzzle operation and is left out. *)
Abbreviation catalog := (list (string * list string)).

(** The image library (PIL) and the files it reads.
    [files path] is the decoded image stored at [path], if the path exists;
    [resize_L src t] is the array of [src.resize((t, t)).convert("L")], which
    has [t] rows of [t] intensities whatever the size of [src]. *)
Record imaging := mk_imaging {
  files : string → option image;
  resize_L : image → nat → image;
  resize_L_rows : ∀ src t, length (resize_L src t) = t;
  resize_L_cols : ∀ src t, Forall (λ row, length row = t) (resize_L src t)
}.

(** What the process is started with. *)
Record env := mk_env {
  image_metadata : catalog;
  ADMIN_PASSWORD : string;
  pil : imaging
}.

(** The mutable state the endpoints share: the session dictionaries, the
    configuration file, and the images written under
    [app/static/images/temp] with their modification times. *)
Record world := mk_world {
  registry : sessions.registry;
  config_file : option config.config;
  temp_images : gmap string (Z * image)
}.

(** The JSON responses. *)
Inductive response :=
| error_response (status_code : Z) (error : string)
| session_expired_response
| failure_response (what : string) (e : py.exn)
| image_response (image_url : string) (start_time : Z) (session_id : string)
| shuffle_response (shuffled_image_url : string) (grid_size : Z)
| swap_response (updated_image_url : string)
| validate_response (is_correct : bool)
| level_response (message : string) (level : option string)
| config_response (messages : list string)
| score_response (total_score : Z).

(** The HTTP status of a response: [session_expired_response] is the 400 of
    the shuffle endpoint with [session_expired: True]; [failure_response] is
    the 500 built by an [except Exception] clause. *)
Definition status (r : response) : Z :=
  match r with
  | error_response c _ => c
  | session_expired_response => 400
  | failure_response _ _ => 500
  | _ => 200
  end.

(** [image_metadata[level]] when [level in image_metadata]. *)
Fixpoint level_data (cat : catalog) (level : string) : option (list string) :=
  match cat with
  | [] => None
  | (l, images) :: cat' => if bool_decide (l = level) then Some images else level_data cat' level
  end.

(** [levels.index(level)]. *)
Fixpoint index_of (level : string) (levels : list string) : option nat :=
  match levels with
  | [] => None
  | l :: levels' => if bool_decide (l = level) then Some 0 else S <$> index_of level levels'
  end.

(** The session a request header designates:
    [session_id and session_id in game_sessions], then [game_sessions[session_id]]. *)
Definition find_session (session_id : option string) (w : world) : option (string * session) :=
  sid ← known session_id (registry w);
  s ← game_sessions (registry w) !! sid;
  Some (sid, s).

(** Mutating the session dictionary stored under [sid]. *)
Definition update_session (sid : string) (s : session) (w : world) : world :=
  {| registry :=
       {| game_sessions := <[sid := s]> (game_sessions (registry w));
          session_timeouts := session_timeouts (registry w) |};
     config_file := config_file w;
     temp_images := temp_images w |}.

(** [Image.fromarray(array).save(path)] at time [now]. *)
Definition save_image (path : string) (now : Z) (array : image) (w : world) : world :=
  {| registry := registry w;
     config_file := config_file w;
     temp_images := <[path := (now, array)]> (temp_images w) |}.

(** [timedelta(hours=h)] in microseconds. *)
Definition timedelta_hours (h : Z) : Z := (h * 3600 * 1000000)%Z.

(** [cleanup_temp_images(max_age_hours)]: a file older than the limit is
    removed. *)
Definition cleanup_temp_images (now max_age_hours : Z) (w : world) : world :=
  {| registry := registry w;
     config_file := config_file w;
     temp_images :=
       filter (λ kv : string * (Z * image),
                 ¬ (now - kv.2.1 > timedelta_hours max_age_hours)%Z) (temp_images w) |}.

(** [f"app/static/images/temp/{kind}_{session_id[:8]}_{level}_{timestamp}.jpg"],
    with [timestamp = int(time.time() * 1000)]. *)
Definition temp_name (prefix kind sid : string) (level : option string) (now : Z) : string :=
  prefix +:+ kind +:+ "_" +:+ String.substring 0 8 sid +:+ "_" +:+ default "None" level
         +:+ "_" +:+ pretty (now `div` 1000)%Z +:+ ".jpg".

(** [GET /image]. [now] is the clock, [uuid4] the identifier drawn if a
    session is created, [draw] the raw draw of [random.choice]. *)
Definition get_image (e : env) (now : Z) (uuid4 : string) (draw : nat)
    (session_id : option string) (w : world) : response * world :=
  let w := {| registry := cleanup_expired_sessions now (registry w);
              config_file := config_file w;
              temp_images := temp_images w |} in
  let w := cleanup_temp_images now 24 w in
  let '(sid, r) := get_or_create_session now uuid4 session_id (registry w) in
  let w := {| registry := r; config_file := config_file w; temp_images := temp_images w |} in
  match game_sessions r !! sid with
  | None => (failure_response "Internal Server Error" py.KeyError, w)
  | Some session =>
      match current_level session ≫= (λ l, pair l <$> level_data (image_metadata e) l) with
      | None => (error_response 404 "Level data not found", w)
      | Some (level, images) =>
          match (if bool_decide (images = []) then None
                 else Some (py.random_choice draw images)) with
          | None => (error_response 404 "No images available in the current level", w)
          | Some (py.Raise ex) => (failure_response "Internal Server Error" ex, w)
          | Some (py.Ok image_name) =>
              let session :=
                {| original_positions := original_positions session;
                   shuffled_positions := shuffled_positions session;
                   patches := patches session;
                   current_level := current_level session;
                   current_image_name := Some image_name;
                   start_time := start_time session;
                   current_shuffled_image_path := current_shuffled_image_path session |} in
              let w := update_session sid session w in
              let image_path := "app/static/images/" +:+ level +:+ "/" +:+ image_name in
              match files (pil e) image_path with
              | None => (error_response 404 ("Image not found: " +:+ image_path), w)
              | Some _ =>
                  let started := default now (start_time session) in
                  let session :=
                    {| original_positions := original_positions session;
                       shuffled_positions := shuffled_positions session;
                       patches := patches session;
                       current_level := current_level session;
                       current_image_name := current_image_name session;
                       start_time := Some started;
                       current_shuffled_image_path := current_shuffled_image_path session |} in
                  (image_response ("/static/images/" +:+ level +:+ "/" +:+ image_name) started sid,
                   update_session sid session w)
              end
          end
      end
  end.

(** The part of [POST /shuffle] between the session checks and the first
    write to the session: the grid size is read, the image is opened, resized
    to [target_size] on both axes and cut into tiles.
    [Image.resize] refuses an empty size and [reshape] a negative dimension. *)
Definition partition (e : env) (grid_size : Z) (image_path : string)
    : py.result (option (Z * image * list image)) :=
  patch_size ← py.floordiv 512 grid_size;
  let target_size := (patch_size * grid_size)%Z in
  match files (pil e) image_path with
  | None => py.Ok None
  | Some src =>
      img_array ← (if bool_decide (target_size ≤ 0)%Z then py.Raise py.ValueError
                   else py.Ok (resize_L (pil e) src (Z.to_nat target_size)));
      tiles ← (if bool_decide (patch_size < 0)%Z then py.Raise py.ValueError
               else np.to_patches img_array (Z.to_nat patch_size));
      py.Ok (Some (patch_size, img_array, tiles))
  end.

(** [POST /shuffle]. [rnd] feeds [random.shuffle]. *)
Definition shuffle_image (e : env) (now : Z) (rnd : nat → nat)
    (session_id : option string) (w : world) : response * world :=
  match find_session session_id w with
  | None => (session_expired_response, w)
  | Some (sid, session) =>
      match current_image_name session with
      | None => (error_response 400 "No image selected. Please load an image first.", w)
      | Some name =>
          match current_level session ≫= (λ l, pair l <$> level_data (image_metadata e) l) with
          | None => (error_response 400 "Invalid level", w)
          | Some (level, images) =>
              if negb (bool_decide (name ∈ images)) then
                (error_response 400 ("Image " +:+ name +:+ " not found in " +:+ level), w)
              else
                let grid_size := config.get_grid_size (config_file w) in
                let image_path := "app/static/images/" +:+ level +:+ "/" +:+ name in
                match partition e grid_size image_path with
                | py.Raise ex => (failure_response "Shuffle failed" ex, w)
                | py.Ok None => (error_response 404 "Image not found", w)
                | py.Ok (Some (patch_size, img_array, tiles)) =>
                    let original := seq 0 (length tiles) in
                    let shuffled := py.random_shuffle rnd original in
                    let session :=
                      {| original_positions := Some original;
                         shuffled_positions := Some shuffled;
                         patches := Some tiles;
                         current_level := current_level session;
                         current_image_name := current_image_name session;
                         start_time := start_time session;
                         current_shuffled_image_path := current_shuffled_image_path session |} in
                    let w := update_session sid session w in
                    let '(h, wd) := np.shape img_array in
                    match np.place_tiles false shuffled tiles patch_size
                            (Z.of_nat h) (Z.of_nat wd) (np.zeros h wd) with
                    | py.Raise ex => (failure_response "Shuffle failed" ex, w)
                    | py.Ok shuffled_image =>
                        let path :=
                          temp_name "app/static/images/temp/" "shuffled" sid (Some level) now in
                        let w := save_image path now shuffled_image w in
                        let session :=
                          {| original_positions := original_positions session;
                             shuffled_positions := shuffled_positions session;
                             patches := patches session;
                             current_level := current_level session;
                             current_image_name := current_image_name session;
                             start_time := start_time session;
                             current_shuffled_image_path := Some path |} in
                        (shuffle_response
                           (temp_name "/static/images/temp/" "shuffled" sid (Some level) now)
                           grid_size,
                         update_session sid session w)
                    end
                end
          end
      end
  end.

(** [POST /swap]. *)
Definition swap_patches (e : env) (now : Z) (index1 index2 : Z)
    (session_id : option string) (w : world) : response * world :=
  match find_session session_id w with
  | None => (error_response 400 "Invalid session", w)
  | Some (sid, session) =>
      match shuffled_positions session, patches session with
      | Some positions, Some patches_list =>
          let grid_size := config.get_grid_size (config_file w) in
          match py.floordiv 512 grid_size with
          | py.Raise ex => (failure_response "Swap failed" ex, w)
          | py.Ok patch_size =>
              let total_patches := Z.of_nat (length positions) in
              if bool_decide (index1 < 0)%Z || bool_decide (index2 < 0)%Z
                 || bool_decide (index1 >= total_patches)%Z
                 || bool_decide (index2 >= total_patches)%Z
              then (error_response 400 "Invalid indices", w)
              else
                match py.swap_items positions (Z.to_nat index1) (Z.to_nat index2) with
                | None => (failure_response "Swap failed" py.IndexError, w)
                | Some positions =>
                    let session :=
                      {| original_positions := original_positions session;
                         shuffled_positions := Some positions;
                         patches := patches session;
                         current_level := current_level session;
                         current_image_name := current_image_name session;
                         start_time := start_time session;
                         current_shuffled_image_path := current_shuffled_image_path session |} in
                    let w := update_session sid session w in
                    let target_size := (patch_size * grid_size)%Z in
                    match np.place_tiles true positions patches_list patch_size
                            target_size target_size
                            (np.zeros (Z.to_nat target_size) (Z.to_nat target_size)) with
                    | py.Raise ex => (failure_response "Swap failed" ex, w)
                    | py.Ok updated_image =>
                        let path :=
                          temp_name "app/static/images/temp/" "updated" sid
                            (current_level session) now in
                        let w := save_image path now updated_image w in
                        let session :=
                          {| original_positions := original_positions session;
                             shuffled_positions := shuffled_positions session;
                             patches := patches session;
                             current_level := current_level session;
                             current_image_name := current_image_name session;
                             start_time := start_time session;
                             current_shuffled_image_path := Some path |} in
                        (swap_response
                           (temp_name "/static/images/temp/" "updated" sid
                              (current_level session) now),
                         update_session sid session w)
                    end
                end
          end
      | _, _ => (error_response 400 "No puzzle to swap", w)
      end
  end.

(** [POST /validate]. *)
Definition validate_puzzle (session_id : option string) (w : world) : response * world :=
  match find_session session_id w with
  | None => (error_response 400 "Invalid session", w)
  | Some (sid, session) =>
      match original_positions session, shuffled_positions session with
      | Some original, Some shuffled =>
          (validate_response (bool_decide (shuffled = original)), w)
      | _, _ => (error_response 400 "No puzzle to validate", w)
      end
  end.

(** [POST /next_level]. [current_index] is [-1] for a level that is not in
    the catalog. *)
Definition next_level (e : env) (session_id : option string) (w : world) : response * world :=
  match find_session session_id w with
  | None => (error_response 400 "Invalid session", w)
  | Some (sid, session) =>
      let levels := (image_metadata e).*1 in
      let current_index : Z :=
        match current_level session ≫= (λ l, index_of l levels) with
        | Some i => Z.of_nat i
        | None => (-1)%Z
        end in
      if bool_decide (current_index < Z.of_nat (length levels) - 1)%Z then
        let session :=
          {| original_positions := None;
             shuffled_positions := None;
             patches := None;
             current_level := levels !! Z.to_nat (current_index + 1);
             current_image_name := None;
             start_time := None;
             current_shuffled_image_path := None |} in
        (level_response "Progressed to the next level" (current_level session),
         update_session sid session w)
      else
        (level_response "You have completed all levels!" None, w)
  end.

(** [POST /admin/config]. *)
Definition update_config (e : env) (grid_size countdown_time : option Z)
    (password : string) (w : world) : response * world :=
  if bool_decide (password ≠ ADMIN_PASSWORD e) then (error_response 401 "Unauthorized", w)
  else
    let bad_grid :=
      match grid_size with
      | Some g => bool_decide (g < 2)%Z || bool_decide (g > 10)%Z
      | None => false
      end in
    if bad_grid then (error_response 400 "Grid size must be between 2 and 10", w)
    else
      let '(messages, w) :=
        match grid_size with
        | Some g =>
            (["Grid size updated to " +:+ pretty g +:+ "x" +:+ pretty g],
             {| registry := registry w;
                config_file := config.set_grid_size g (config_file w);
                temp_images := temp_images w |})
        | None => ([], w)
        end in
      match countdown_time with
      | Some c =>
          if bool_decide (c < 0)%Z || bool_decide (c > 60)%Z then
            (error_response 400 "Countdown time must be between 0 and 60 seconds", w)
          else
            (config_response (messages ++ ["Countdown time updated to " +:+ pretty c +:+ "s"]),
             {| registry := registry w;
                config_file := config.set_countdown_time c (config_file w);
                temp_images := temp_images w |})
      | None => (config_response messages, w)
      end.

(** The table [label_weights] of the score endpoint: level name to
    [(weight, num_questions)]. *)
Definition label_weights : list (string * (Z * Z)) :=
  [("level_1", (10, 3)); ("level_2", (20, 3)); ("level_3", (30, 3)); ("level_4", (40, 5))]%Z.

Fixpoint weights_of (level : string) (table : list (string * (Z * Z))) : option (Z * Z) :=
  match table with
  | [] => None
  | (l, wn) :: table' => if bool_decide (l = level) then Some wn else weights_of level table'
  end.

(** [weighted_score = score * (weight / num_questions)] in double precision. *)
Definition weighted_score (score weight num_questions : Z) : py.result float :=
  weight_per_question ← py.truediv weight num_questions;
  s ← py.float_of_int score;
  py.Ok (PrimFloat.mul s weight_per_question).

(** [POST /save_score]: the fields of the request body, then the call of the
    database. The rounded [weighted_score] and the time stamps of the
    response are left out. *)
Definition save_score (now : Z) (player_id level : option string) (score : option Z)
    (d : database.db) : response * database.db :=
  match player_id, level, score with
  | Some pid, Some lvl, Some sc =>
      if negb (py.truthy player_id) || negb (py.truthy level) then
        (error_response 400 "Invalid data", d)
      else
        match weights_of lvl label_weights with
        | None => (error_response 400 ("Invalid level: " +:+ lvl), d)
        | Some (weight, num_questions) =>
            match weighted_score sc weight num_questions with
            | py.Raise ex => (failure_response "Internal Server Error" ex, d)
            | py.Ok ws =>
                match database.save_score now pid lvl ws d with
                | (py.Raise ex, d') => (failure_response "Failed to save score" ex, d')
                | (py.Ok total, d') => (score_response total, d')
                end
            end
        end
  | _, _, _ => (error_response 400 "Invalid data", d)
  end.

(** The requests of the puzzle engine and the nondeterministic inputs a
    request may read. *)
Inductive request :=
| GET_image (session_id : option string)
| POST_shuffle (session_id : option string)
| POST_swap (index1 index2 : Z) (session_id : option string)
| POST_validate (session_id : option string)
| POST_next_level (session_id : option string)
| POST_admin_config (grid_size countdown_time : option Z) (password : string).

Record inputs := mk_inputs {
  now : Z;
  uuid4 : string;
  rnd : nat → nat;
  draw : nat
}.

Definition handle (e : env) (i : inputs) (req : request) (w : world) : response * world :=
  match req with
  | GET_image sid => get_image e (now i) (uuid4 i) (draw i) sid w
  | POST_shuffle sid => shuffle_image e (now i) (rnd i) sid w
  | POST_swap i1 i2 sid => swap_patches e (now i) i1 i2 sid w
  | POST_validate sid => validate_puzzle sid w
  | POST_next_level sid => next_level e sid w
  | POST_admin_config g c pw => update_config e g c pw w
  end.

(** The worlds the server can be in: it starts with no session, whatever
    configuration file and temporary images the disk holds, and then serves
    requests; the environment may differ from one request to the next (images
    and catalog entries can be added by the upload endpoint). *)
Inductive reachable : world → Prop :=
| reachable_start cfg tmp :
    reachable {| registry := {| game_sessions := ∅; session_timeouts := ∅ |};
                 config_file := cfg;
                 temp_images := tmp |}
| reachable_step e i req w :
    reachable w → reachable (handle e i req w).2.

End main.

(* ===================================================================== *)
(** * [app/src/main.py]: the scoring of answers *)
(* ===================================================================== *)

Module quiz.

Section scoring.

(** The JSON values of questions and answers, and Python's [==] on them. *)
Context {value : Type} (py_eq : value → value → bool).

(** An entry of ["questions"]. *)
Record question := mk_question {
  question_text : value;
  answer : value
}.

(** An entry of ["details"]. *)
Record detail := mk_detail {
  detail_question : value;
  player_answer : value;
  correct_answer : value;
  is_correct : bool
}.

(** The body of the loop of [check_answers]; the state is [score] and
    [detailed_results]. An entry of ["answers"] is its ["index"] (an integer,
    or [None] when the key is missing or null) and its ["answer"]. *)
Definition check_answer (questions : list question) (player : option Z * value)
    (st : Z * list detail) : py.result (Z * list detail) :=
  match player.1 with
  | Some index =>
      if bool_decide (index < Z.of_nat (length questions))%Z then
        q ← py.getitem_int questions index;
        let correct := answer q in
        let ok := py_eq player.2 correct in
        py.Ok (if ok then (st.1 + 1)%Z else st.1,
               st.2 ++ [ {| detail_question := question_text q;
                            player_answer := player.2;
                            correct_answer := correct;
                            is_correct := ok |} ])
      else py.Ok st
  | None => py.Ok st
  end.

(** The scoring of [check_answers], from [questions = image_data["questions"]]
    to the response: [(score, total_questions, details)]. *)
Definition check_answers (questions : list question) (player_answers : list (option Z * value))
    : py.result (Z * nat * list detail) :=
  st ← py.for_each player_answers (check_answer questions) (0%Z, []);
  py.Ok (st.1, length questions, st.2).

End scoring.

End quiz.

(* ===================================================================== *)
(** * [app/src/main.py]: registration *)
(* ===================================================================== *)

Module registration.
Import database.

(** The class [[a-zA-Z ]]. *)
Definition name_char (c : N) : bool :=
  bool_decide (65 ≤ c ≤ 90)%N || bool_decide (97 ≤ c ≤ 122)%N || bool_decide (c = 32)%N.

(** [re.match("^[a-zA-Z ]+$", s)] succeeds: [$] matches at the end of the
    text and also just before a line feed that ends it. *)
Definition name_match (s : list N) : bool :=
  let body := match reverse s with
              | 10%N :: rest => reverse rest
              | _ => s
              end in
  negb (bool_decide (body = [])) && forallb name_char body.

(** The text as it is handed to the database; the names that get there are
    ASCII. *)
Definition encode (s : list N) : string :=
  foldr (λ c rest, String (Ascii.ascii_of_N c) rest) EmptyString s.

(** The answers of [POST /register]. *)
Inductive register_response :=
| register_error (error : string)
| register_ok (message player_id username : string) (is_returning : bool)
    (total_score : Z) (next_level : string) (completed_levels : list string)
    (countdown_time : Z).

(** [register_player_endpoint(request, username)]. [username] is the form
    field by its code points, [uuid4] the identifier drawn for a new player,
    [cfg] the configuration file. *)
Definition register_player_endpoint (uuid4 : string) (username : list N)
    (cfg : option config.config) (d : db) : register_response * db :=
  let username := py.strip username in
  if bool_decide (username = []) || bool_decide (length username < 3) then
    (register_error "Username must be at least 3 characters long", d)
  else if negb (name_match username) then
    (register_error "Username must contain only letters (a-z, A-Z)", d)
  else
    let name := encode username in
    match get_player_by_username name d with
    | Some existing_player =>
        let progress := get_player_progress (player_id existing_player) d in
        (register_ok "Welcome back! Resuming your game."
           (player_id existing_player) name true (total_score existing_player)
           progress.2 progress.1 (config.get_countdown_time cfg), d)
    | None =>
        match register_player uuid4 name d with
        | (Some error, d') =>
            (register_error (if bool_decide (error = EmptyString)
                             then "Registration failed" else error), d')
        | (None, d') =>
            (register_ok "Player registered successfully" uuid4 name false 0 "level_1" []
               (config.get_countdown_time cfg), d')
        end
    end.

End registration.

(* ===================================================================== *)
(** * A concrete server, used to run the model *)
(* ===================================================================== *)

Module example.
Import sessions main.

(** A stand-in for the image library: every pixel of the resized image is
    the top-left pixel of the source. *)
Definition flat_resize (src : image) (t : nat) : image :=
  replicate t (replicate t (default 0%Z (head src ≫= head))).

(** One 4 x 4 picture on disk, in level 1. *)
Definition picture : image :=
  [[7; 1; 2; 3]; [4; 5; 6; 7]; [8; 9; 10; 11]; [12; 13; 14; 15]]%Z.

Definition disk (path : string) : option image :=
  if bool_decide (path = "app/static/images/level_1/a.jpg") then Some picture else None.

Definition pil0 : imaging :=
  {| files := disk;
     resize_L := flat_resize;
     resize_L_rows := λ src t, length_replicate t _;
     resize_L_cols := λ src t,
       Forall_replicate (λ row, length row = t) t _ (length_replicate t _) |}.

Definition env0 : env :=
  {| image_metadata := [("level_1", ["a.jpg"]); ("level_2", ["b.jpg"])];
     ADMIN_PASSWORD := "secret";
     pil := pil0 |}.

(** An empty server whose configuration file asks for a 2 x 2 grid. *)
Definition start0 : world :=
  {| registry := {| game_sessions := ∅; session_timeouts := ∅ |};
     config_file := Some {| config.grid_size := Some 2%Z; config.countdown_time := None |};
     temp_images := ∅ |}.

Definition sid0 : string := "0f8fad5b-d9cb-469f-a165-70867728950e".
Definition token : option string := Some sid0.

Definition inputs0 : inputs :=
  {| now := 1000000; uuid4 := sid0; rnd := λ i, i + 1; draw := 0 |}.

(** The session of that client in a world (a fresh one if there is none). *)
Definition session_of (w : world) : session :=
  default new_session (game_sessions (registry w) !! sid0).

(** A client fetches an image, then asks for a shuffle. *)
Definition fetched : world := (handle env0 inputs0 (GET_image None) start0).2.
Definition shuffled : world := (handle env0 inputs0 (POST_shuffle token) fetched).2.

(** The administrator then sets a 3 x 3 grid. *)
Definition regridded : world :=
  (handle env0 inputs0 (POST_admin_config (Some 3%Z) None "secret") shuffled).2.

(** A client that fetches an image and moves on to the next level. *)
Definition level2 : world := (handle env0 inputs0 (POST_next_level token) fetched).2.

(** The same server started with a configuration file that asks for an
    11 x 11 grid, after a client has fetched an image. *)
Definition start11 : world :=
  {| registry := {| game_sessions := ∅; session_timeouts := ∅ |};
     config_file := Some {| config.grid_size := Some 11%Z; config.countdown_time := None |};
     temp_images := ∅ |}.

Definition fetched11 : world := (handle env0 inputs0 (GET_image None) start11).2.

End example.

(* ===================================================================== *)
(** * Properties of the session registry *)
(* ===================================================================== *)

Section registry_facts.
Import sessions.

Lemma clear_all_sessions (l : list string) (r : registry) (k : string) :
  game_sessions (foldl (λ acc sid, clear_session sid acc) r l) !! k
  = if decide (k ∈ l) then None else game_sessions r !! k.
Proof.
  revert r. induction l as [|x l IH]; intros r; simpl.
  - destruct (decide (k ∈ [])) as [H|_]; [by apply elem_of_nil in H | done].
  - rewrite IH. simpl.
    destruct (decide (k = x)) as [->|Hne].
    + rewrite lookup_delete_eq. repeat case_decide; try done; exfalso; set_solver.
    + rewrite lookup_delete_ne by done.
      repeat case_decide; try done; exfalso; set_solver.
Qed.

Lemma clear_all_timeouts (l : list string) (r : registry) (k : string) :
  session_timeouts (foldl (λ acc sid, clear_session sid acc) r l) !! k
  = if decide (k ∈ l) then None else session_timeouts r !! k.
Proof.
  revert r. induction l as [|x l IH]; intros r; simpl.
  - destruct (decide (k ∈ [])) as [H|_]; [by apply elem_of_nil in H | done].
  - rewrite IH. simpl.
    destruct (decide (k = x)) as [->|Hne].
    + rewrite lookup_delete_eq. repeat case_decide; try done; exfalso; set_solver.
    + rewrite lookup_delete_ne by done.
      repeat case_decide; try done; exfalso; set_solver.
Qed.

Lemma elem_of_expired (now : Z) (r : registry) (k : string) :
  k ∈ expired now r ↔ ∃ t, session_timeouts r !! k = Some t ∧ (t < now)%Z.
Proof.
  unfold expired. rewrite list_elem_of_fmap. split.
  - intros [[k' t] [-> [Ht Hin]%list_elem_of_filter]]. simpl in *.
    exists t. split; [by apply elem_of_map_to_list | done].
  - intros (t & Hk & Ht). exists (k, t). split; [done|].
    apply list_elem_of_filter. split; [done | by apply elem_of_map_to_list].
Qed.

(** C9. After [cleanup_expired_sessions] ([sweep]) has run at time [now], a
    session whose expiry time stamp lies before [now] is in neither
    dictionary of the registry, and a session whose expiry has not passed
    (or that has no expiry entry) is kept exactly as it was, with its
    expiry. *)
Theorem sweep_removes_exactly_expired (now : Z) (r : registry) (sid : string) :
  ((∃ t, session_timeouts r !! sid = Some t ∧ (t < now)%Z) →
     game_sessions (cleanup_expired_sessions now r) !! sid = None
     ∧ session_timeouts (cleanup_expired_sessions now r) !! sid = None)
  ∧ (¬ (∃ t, session_timeouts r !! sid = Some t ∧ (t < now)%Z) →
     game_sessions (cleanup_expired_sessions now r) !! sid = game_sessions r !! sid
     ∧ session_timeouts (cleanup_expired_sessions now r) !! sid = session_timeouts r !! sid).
Proof.
  unfold cleanup_expired_sessions.
  rewrite clear_all_sessions, clear_all_timeouts.
  split; intros H; destruct (decide (sid ∈ expired now r)) as [Hin|Hin]; try done.
  - by apply elem_of_expired in H.
  - by apply elem_of_expired in Hin.
Qed.

Lemma known_Some (session_id : option string) (r : registry) (sid : string) :
  known session_id r = Some sid ↔
  session_id = Some sid ∧ sid ≠ "" ∧ is_Some (game_sessions r !! sid).
Proof.
  unfold known. destruct session_id as [s|]; simpl; [|naive_solver].
  destruct (bool_decide (s ≠ "")) eqn:E1; simpl.
  - apply bool_decide_eq_true in E1.
    destruct (bool_decide (is_Some (game_sessions r !! s))) eqn:E2.
    + apply bool_decide_eq_true in E2. naive_solver.
    + apply bool_decide_eq_false in E2. naive_solver.
  - apply bool_decide_eq_false in E1. naive_solver.
Qed.

Lemma known_None (session_id : option string) (r : registry) :
  known session_id r = None ↔
  session_id = None ∨ session_id = Some "" ∨
  ∃ sid, session_id = Some sid ∧ game_sessions r !! sid = None.
Proof.
  destruct (known session_id r) as [sid|] eqn:E.
  - apply known_Some in E as (-> & Hne & [s Hs]). split; [done|].
    intros [?|[?|(sid' & ? & ?)]]; simplify_eq.
  - split; [intros _|done].
    destruct session_id as [s|]; [|by left]. right.
    destruct (decide (s = "")) as [->|Hne]; [by left|right].
    exists s. split; [done|].
    destruct (game_sessions r !! s) as [x|] eqn:Hs; [|done].
    assert (known (Some s) r = Some s) as Hk by (apply known_Some; eauto).
    congruence.
Qed.

(** C4, as the code has it. [get_or_create_session] always returns. A token
    that is non-empty and present in [game_sessions] (whether or not its
    expiry time stamp has passed: only the sweep removes a session) is
    returned as it is, every session is left unchanged and that token's
    expiry becomes [now] plus the timeout. For any other token (missing,
    empty, or absent from the registry) the identifier just drawn is
    returned, and it designates a fresh session: level ["level_1"] and no
    arrangement, image or start time, with the same expiry. *)
Theorem resolve_refreshes_or_creates (now : Z) (uuid4 : string)
    (session_id : option string) (r : registry) :
  let res := get_or_create_session now uuid4 session_id r in
  let deadline := (now + timedelta_minutes SESSION_TIMEOUT_MINUTES)%Z in
  (∀ sid, session_id = Some sid → sid ≠ "" → is_Some (game_sessions r !! sid) →
     res.1 = sid
     ∧ game_sessions res.2 = game_sessions r
     ∧ session_timeouts res.2 = <[sid := deadline]> (session_timeouts r))
  ∧ ((session_id = None ∨ session_id = Some "" ∨
      ∃ sid, session_id = Some sid ∧ game_sessions r !! sid = None) →
     res.1 = uuid4
     ∧ game_sessions res.2 !! uuid4 = Some new_session
     ∧ current_level new_session = Some "level_1"
     ∧ shuffled_positions new_session = None
     ∧ original_positions new_session = None
     ∧ patches new_session = None
     ∧ session_timeouts res.2 !! uuid4 = Some deadline
     ∧ (∀ other, other ≠ uuid4 →
          game_sessions res.2 !! other = game_sessions r !! other
          ∧ session_timeouts res.2 !! other = session_timeouts r !! other)).
Proof.
  intros res deadline. subst res deadline. unfold get_or_create_session. split.
  - intros sid -> Hne Hin.
    assert (known (Some sid) r = Some sid) as -> by (by apply known_Some).
    done.
  - intros H. apply known_None in H. rewrite H. simpl.
    rewrite !lookup_insert_eq. repeat split; try done.
    all: by rewrite lookup_insert_ne.
Qed.

(** C4, the claim as stated fails: a token whose expiry has passed but that
    no sweep has removed yet is not given a fresh session; the same session
    is returned and its expiry is renewed. *)
Lemma resolve_expired_token_is_reused :
  let r := {| game_sessions := {[ "tok" := new_session ]};
              session_timeouts := {[ "tok" := 10%Z ]} |} in
  let res := get_or_create_session 5000 "fresh" (Some "tok") r in
  session_timeouts r !! "tok" = Some 10%Z ∧ (10 < 5000)%Z
  ∧ res.1 = "tok" ∧ res.1 ≠ "fresh"
  ∧ game_sessions res.2 !! "fresh" = None.
Proof. vm_compute. repeat split; congruence. Qed.

End registry_facts.

(* ===================================================================== *)
(** * Lists: exchanging two items, and the shuffle *)
(* ===================================================================== *)

Section list_facts.
Context {A : Type}.
Implicit Types (x : list A) (i j : nat).

Lemma swap_items_Some x i j :
  i < length x → j < length x → is_Some (py.swap_items x i j).
Proof.
  intros [xi Hi]%lookup_lt_is_Some [xj Hj]%lookup_lt_is_Some.
  unfold py.swap_items. rewrite Hi, Hj. eauto.
Qed.

Lemma swap_items_length x i j y :
  py.swap_items x i j = Some y → length y = length x.
Proof.
  unfold py.swap_items. destruct (x !! i), (x !! j); intros; simplify_eq.
  by rewrite !length_insert.
Qed.

(** After the exchange, position [k] holds what the other position held. *)
Lemma swap_items_lookup x i j y k :
  py.swap_items x i j = Some y →
  y !! k = x !! (if decide (k = j) then i else if decide (k = i) then j else k).
Proof.
  unfold py.swap_items.
  destruct (x !! i) as [xi|] eqn:Hi, (x !! j) as [xj|] eqn:Hj; intros; simplify_eq.
  pose proof (lookup_lt_Some _ _ _ Hi). pose proof (lookup_lt_Some _ _ _ Hj).
  rewrite !list_lookup_insert, !length_insert.
  repeat case_decide; simplify_eq; try done; lia.
Qed.

Lemma swap_items_same x i y : py.swap_items x i i = Some y → y = x.
Proof.
  intros H. apply list_eq. intros k. rewrite (swap_items_lookup _ _ _ _ _ H).
  repeat case_decide; by subst.
Qed.

Lemma swap_items_twice x i j y :
  py.swap_items x i j = Some y → py.swap_items y i j = Some x.
Proof.
  intros H.
  assert (i < length x ∧ j < length x) as [Hi Hj].
  { unfold py.swap_items in H.
    destruct (x !! i) eqn:?, (x !! j) eqn:?; simplify_eq.
    eauto using lookup_lt_Some. }
  pose proof (swap_items_length _ _ _ _ H) as Hlen.
  destruct (swap_items_Some y i j) as [z Hz]; [lia..|].
  rewrite Hz. f_equal. apply list_eq. intros k.
  rewrite (swap_items_lookup _ _ _ _ _ Hz), (swap_items_lookup _ _ _ _ _ H).
  repeat case_decide; by subst.
Qed.

Lemma swap_items_perm x i j y : py.swap_items x i j = Some y → y ≡ₚ x.
Proof.
  intros H. apply Permutation_inj. split; [by eapply swap_items_length|].
  exists (λ k, if decide (k = j) then i else if decide (k = i) then j else k).
  split; [|intros k; by eapply swap_items_lookup].
  intros a b. repeat case_decide; intros; by simplify_eq.
Qed.

Lemma shuffle_down_perm (rnd : nat → nat) i x :
  py.shuffle_down rnd i x ≡ₚ x.
Proof.
  revert x. induction i as [|i IH]; intros x; [done|]. simpl.
  rewrite IH. destruct (py.swap_items x (S i) _) eqn:E; simpl; [|done].
  by eapply swap_items_perm.
Qed.

Lemma random_shuffle_perm (rnd : nat → nat) x : py.random_shuffle rnd x ≡ₚ x.
Proof. apply shuffle_down_perm. Qed.

End list_facts.

(* ===================================================================== *)
(** * Arrays: shapes, pixels, tiles *)
(* ===================================================================== *)

(** An [h x w] array, and the pixel at row [r], column [c]. *)
Definition rect (h w : nat) (a : image) : Prop :=
  length a = h ∧ Forall (λ row : list Z, length row = w) a.

Definition px (a : image) (r c : nat) : option Z := a !! r ≫= (.!! c).

(** Arithmetic with quotients and remainders on [nat]. *)
Ltac divlia := zify; Z.to_euclidean_division_equations; nia.

Section array_facts.

Lemma rect_row h w (a : image) r row : rect h w a → a !! r = Some row → length row = w.
Proof. intros [_ Hw] Hr. by eapply (Forall_lookup_1 _ _ _ _ Hw Hr). Qed.

Lemma px_Some h w (a : image) r c : rect h w a → r < h → c < w → is_Some (px a r c).
Proof.
  intros Ha Hr Hc. unfold px.
  destruct (lookup_lt_is_Some_2 a r) as [row Hrow]; [destruct Ha; lia|].
  rewrite Hrow. simpl. apply lookup_lt_is_Some. by rewrite (rect_row _ _ _ _ _ Ha Hrow).
Qed.

(** Two arrays of one shape with the same pixels are equal. *)
Lemma image_ext h w (a b : image) :
  rect h w a → rect h w b →
  (∀ r c, r < h → c < w → px a r c = px b r c) → a = b.
Proof.
  intros Ha Hb Hpx. apply list_eq. intros r.
  destruct (decide (r < h)) as [Hr|Hr].
  - destruct (lookup_lt_is_Some_2 a r) as [ra Hra]; [destruct Ha; lia|].
    destruct (lookup_lt_is_Some_2 b r) as [rb Hrb]; [destruct Hb; lia|].
    rewrite Hra, Hrb. f_equal. apply list_eq. intros c.
    destruct (decide (c < w)) as [Hc|Hc].
    + specialize (Hpx r c Hr Hc). unfold px in Hpx. by rewrite Hra, Hrb in Hpx.
    + rewrite !(proj2 (lookup_ge_None _ _)); [done|..].
      * rewrite (rect_row _ _ _ _ _ Hb Hrb). lia.
      * rewrite (rect_row _ _ _ _ _ Ha Hra). lia.
  - rewrite !(proj2 (lookup_ge_None _ _)); [done|destruct Hb; lia|destruct Ha; lia].
Qed.

Lemma rect_zeros h w : rect h w (np.zeros h w).
Proof.
  split; [apply length_replicate|]. apply Forall_replicate, length_replicate.
Qed.

Lemma shape_rect h w (a : image) : rect h w a → 0 < h → np.shape a = (h, w).
Proof.
  intros [Hh Hw] Hpos. unfold np.shape. rewrite Hh. f_equal.
  destruct a as [|row a]; simpl in *; [lia|]. by inversion Hw.
Qed.

Context {A : Type}.
Implicit Types (l : list A) (L : list (list A)).

Lemma length_chunks n count l : length (np.chunks n count l) = count.
Proof. revert l. induction count; intros; simpl; auto. Qed.

Lemma lookup_chunks n count l k :
  k < count → np.chunks n count l !! k = Some (take n (drop (k * n) l)).
Proof.
  revert l k. induction count as [|count IH]; intros l k Hk; [lia|].
  destruct k as [|k]; simpl; [done|].
  rewrite IH by lia. by rewrite drop_drop.
Qed.

Lemma length_concat_uniform n L :
  Forall (λ l, length l = n) L → length (concat L) = length L * n.
Proof. induction 1; simpl; [done|]. rewrite length_app. lia. Qed.

Lemma lookup_concat_uniform n L k :
  Forall (λ l, length l = n) L → 0 < n →
  concat L !! k = L !! (k / n) ≫= (.!! (k mod n)).
Proof.
  intros HL Hn. revert k. induction HL as [|l L Hl HL IH]; intros k; simpl.
  - done.
  - rewrite lookup_app, Hl. destruct (decide (k < n)) as [Hk|Hk].
    + rewrite Nat.div_small, Nat.mod_small by done. simpl.
      destruct (l !! k) eqn:E; [done|].
      apply lookup_ge_None in E. lia.
    + rewrite (proj2 (lookup_ge_None l k)) by lia.
      rewrite IH.
      assert (k / n = S ((k - n) / n)) as ->.
      { rewrite <- Nat.add_1_r, <- (Nat.div_add (k - n) 1 n) by lia. f_equal. lia. }
      assert (k mod n = (k - n) mod n) as ->.
      { rewrite <- (Nat.Div0.mod_add (k - n) 1 n). f_equal. lia. }
      done.
Qed.

Lemma length_transpose cols L :
  Forall (λ l, length l = cols) L → length (np.transpose cols L) = cols.
Proof.
  induction 1 as [|l L Hl HL IH]; simpl; [apply length_replicate|].
  rewrite length_zip_with. lia.
Qed.

Lemma lookup_transpose cols L c r :
  Forall (λ l, length l = cols) L →
  np.transpose cols L !! c ≫= (.!! r) = L !! r ≫= (.!! c).
Proof.
  intros HL. revert r. induction HL as [|l L Hl HL IH]; intros r; simpl.
  - destruct (replicate cols [] !! c) as [x|] eqn:E; [|done].
    apply lookup_replicate in E as [-> _]. done.
  - rewrite lookup_zip_with.
    destruct (l !! c) as [x|] eqn:Ex; simpl.
    + destruct (np.transpose cols L !! c) as [col|] eqn:Ec; simpl.
      * destruct r as [|r]; simpl; [done|]. by rewrite <- IH.
      * apply lookup_ge_None in Ec. rewrite length_transpose in Ec by done.
        apply lookup_lt_Some in Ex. lia.
    + destruct r as [|r]; simpl; [done|].
      rewrite <- IH. apply lookup_ge_None in Ex.
      destruct (np.transpose cols L !! c) as [col|] eqn:Ec; [|done].
      apply lookup_lt_Some in Ec. rewrite length_transpose in Ec by done. lia.
Qed.

Lemma transpose_rows cols L :
  Forall (λ l, length l = cols) L →
  Forall (λ col, length col = length L) (np.transpose cols L).
Proof.
  induction 1 as [|l L Hl HL IH]; simpl.
  - by apply Forall_replicate.
  - apply Forall_lookup. intros c col Hc.
    apply lookup_zip_with_Some in Hc as (x & col' & -> & Hx & Hcol).
    simpl. f_equal. by eapply (Forall_lookup_1 _ _ _ _ IH Hcol).
Qed.

End array_facts.

Lemma flat_index_lt a b n m : a < n → b < m → a * m + b < n * m.
Proof.
  intros Ha Hb. assert (S a * m ≤ n * m) by (apply Nat.mul_le_mono_r; lia). lia.
Qed.

Section run_facts.
Context {A : Type}.
Implicit Types (l : list A).

Lemma lookup_run n m l i :
  i < n → take n (drop m l) !! i = l !! (m + i).
Proof. intros. by rewrite lookup_take_lt, lookup_drop. Qed.

Lemma chunks_uniform n count l :
  count * n ≤ length l → Forall (λ x, length x = n) (np.chunks n count l).
Proof.
  intros Hlen. apply Forall_lookup. intros k x Hk.
  assert (k < count) as Hlt.
  { apply lookup_lt_Some in Hk. by rewrite length_chunks in Hk. }
  rewrite lookup_chunks in Hk by done. simplify_eq.
  rewrite length_take, length_drop. nia.
Qed.

End run_facts.

(** The nested-list model of [reshape] agrees with C-order indexing. *)
Lemma reshape4_index d0 d1 d2 d3 (data : list Z) a b c d :
  a < d0 → b < d1 → c < d2 → d < d3 →
  np.reshape4 d0 d1 d2 d3 data !! a
    ≫= (λ x, x !! b ≫= (λ y, y !! c ≫= (λ z : list Z, z !! d)))
  = data !! (((a * d1 + b) * d2 + c) * d3 + d).
Proof.
  intros Ha Hb Hc Hd. unfold np.reshape4.
  pose proof (flat_index_lt a b d0 d1 Ha Hb) as H1.
  pose proof (flat_index_lt _ c _ d2 H1 Hc) as H2.
  rewrite lookup_chunks by done. simpl.
  rewrite lookup_run by done.
  rewrite lookup_chunks by done. simpl.
  rewrite lookup_run by done.
  rewrite lookup_chunks by done. simpl.
  by rewrite lookup_run.
Qed.

Lemma to_patches_spec g p (img : image) :
  0 < g → 0 < p → rect (g * p) (g * p) img →
  ∃ tiles, np.to_patches img p = py.Ok tiles
    ∧ length tiles = g * g
    ∧ Forall (rect p p) tiles
    ∧ ∀ k b d, k < g * g → b < p → d < p →
        tiles !! k ≫= (λ t, px t b d) = px img (k / g * p + b) (k mod g * p + d).
Proof.
  intros Hg Hp Himg. unfold np.to_patches.
  rewrite (shape_rect _ _ _ Himg) by nia.
  assert (length (np.ravel img) = g * (g * p * p)) as Hdata.
  { unfold np.ravel. destruct Himg as [Hh Hw].
    rewrite (length_concat_uniform _ _ Hw), Hh. lia. }
  rewrite bool_decide_eq_false_2 by lia.
  rewrite Nat.div_mul by lia.
  rewrite bool_decide_eq_false_2 by nia.
  rewrite Hdata, Nat.Div0.mod_mul, Nat.div_mul by nia.
  rewrite bool_decide_eq_false_2 by (intros ?; done).
  eexists. split; [done|].
  set (data := np.ravel img) in *.
  set (L3 := np.chunks p (g * p * g) data).
  set (L2 := np.chunks g (g * p) L3).
  assert (Forall (λ x, length x = p) L3) as HL3.
  { apply chunks_uniform. rewrite Hdata. lia. }
  assert (Forall (λ x, length x = g) L2) as HL2.
  { apply chunks_uniform. unfold L3. rewrite length_chunks. lia. }
  assert (Forall (λ x, length x = p) (np.chunks p g L2)) as HL1.
  { apply chunks_uniform. unfold L2. rewrite length_chunks. lia. }
  unfold np.reshape4, np.swapaxes12. fold L3. fold L2.
  (* each block row, transposed, lists its g tiles *)
  assert (∀ a B, np.chunks p g L2 !! a = Some B → Forall (λ x, length x = g) B) as HB.
  { intros a B HaB. assert (a < g) as Ha.
    { apply lookup_lt_Some in HaB. by rewrite length_chunks in HaB. }
    rewrite lookup_chunks in HaB by done. simplify_eq.
    by apply Forall_take, Forall_drop. }
  assert (Forall (λ x, length x = g) (np.transpose g <$> np.chunks p g L2)) as HT.
  { apply Forall_fmap, Forall_lookup. intros a B HaB. simpl.
    apply length_transpose. by eapply HB. }
  (* pixels of tile k *)
  assert (∀ k t, k < g * g →
            (np.transpose g <$> np.chunks p g L2) !! (k / g) ≫= (.!! (k mod g)) = Some t →
            length t = p ∧ ∀ b, b < p →
              t !! b = Some (take p (drop (((k / g * p + b) * g + k mod g) * p) data))) as Htile.
  { intros k t Hk Ht.
    assert (k / g < g) as Ha by (apply Nat.Div0.div_lt_upper_bound; lia).
    assert (k mod g < g) as Hc by (apply Nat.mod_upper_bound; lia).
    rewrite list_lookup_fmap, lookup_chunks in Ht by done. simpl in Ht.
    set (B := take p (drop (k / g * p) L2)) in *.
    assert (Forall (λ x, length x = g) B) as HBg.
    { by apply Forall_take, Forall_drop. }
    assert (length B = p) as HBp.
    { unfold B. rewrite length_take, length_drop. unfold L2. rewrite length_chunks. nia. }
    split.
    - pose proof (transpose_rows g B HBg) as Hrows.
      rewrite (Forall_lookup_1 _ _ _ _ Hrows Ht). done.
    - intros b Hb.
      pose proof (lookup_transpose g B (k mod g) b HBg) as Heq.
      rewrite Ht in Heq. simpl in Heq. rewrite Heq.
      unfold B. rewrite lookup_run by done.
      unfold L2. rewrite lookup_chunks by nia. simpl.
      rewrite lookup_run by done.
      unfold L3. rewrite lookup_chunks by nia. done. }
  assert (∀ k, k < g * g → is_Some (concat (np.transpose g <$> np.chunks p g L2) !! k)) as Hsome.
  { intros k Hk. apply lookup_lt_is_Some.
    rewrite (length_concat_uniform _ _ HT), length_fmap, length_chunks. lia. }
  split; [|split].
  - rewrite (length_concat_uniform _ _ HT), length_fmap, length_chunks. done.
  - apply Forall_lookup. intros k t Hk.
    assert (k < g * g) as Hlt.
    { apply lookup_lt_Some in Hk.
      by rewrite (length_concat_uniform _ _ HT), length_fmap, length_chunks in Hk. }
    rewrite (lookup_concat_uniform _ _ _ HT) in Hk by done.
    destruct (Htile k t Hlt Hk) as [Hlen Hrows].
    split; [done|]. apply Forall_lookup. intros b row Hrow.
    assert (b < p) as Hb by (apply lookup_lt_Some in Hrow; lia).
    rewrite Hrows in Hrow by done. injection Hrow as <-.
    rewrite length_take, length_drop, Hdata.
    assert (k / g < g) as Ha by (apply Nat.Div0.div_lt_upper_bound; lia).
    assert (k mod g < g) as Hc by (apply Nat.mod_upper_bound; lia).
    pose proof (flat_index_lt _ b _ p Ha Hb) as H1.
    pose proof (flat_index_lt _ _ _ g H1 Hc) as H2.
    assert (S ((k / g * p + b) * g + k mod g) * p ≤ g * p * g * p)
      by (apply Nat.mul_le_mono_r; lia).
    lia.
  - intros k b d Hk Hb Hd.
    destruct (Hsome k Hk) as [t Ht]. rewrite Ht. simpl.
    rewrite (lookup_concat_uniform _ _ _ HT) in Ht by done.
    destruct (Htile k t Hk Ht) as [Hlen Hrows].
    unfold px. rewrite Hrows by done. simpl.
    rewrite lookup_run by done.
    unfold data, np.ravel. destruct Himg as [Hh Hw].
    assert (0 < g * p) as Hgp by nia.
    rewrite (lookup_concat_uniform _ _ _ Hw) by done.
    assert (k mod g < g) by (apply Nat.mod_upper_bound; lia).
    replace (((k / g * p + b) * g + k mod g) * p + d)
      with ((k mod g * p + d) + (k / g * p + b) * (g * p)) by lia.
    rewrite Nat.div_add, Nat.Div0.mod_add by lia.
    rewrite Nat.div_small, Nat.mod_small by nia.
    done.
Qed.

Lemma div_block p r a : 0 < p → (r / p = a ↔ a * p ≤ r < a * p + p).
Proof.
  intros Hp. split.
  - intros <-. pose proof (Nat.div_mod_eq r p). pose proof (Nat.mod_upper_bound r p). lia.
  - intros [H1 H2]. symmetry. apply (Nat.div_unique r p a (r - a * p)); lia.
Qed.

Lemma mod_block p r a : 0 < p → r / p = a → r mod p = r - a * p.
Proof. intros Hp <-. pose proof (Nat.div_mod_eq r p). lia. Qed.

Lemma block_eq p g r c a c0 :
  0 < p → c < g * p → c0 < g →
  (r / p * g + c / p = a * g + c0 ↔ r / p = a ∧ c / p = c0).
Proof.
  intros Hp Hc Hc0.
  assert (c / p < g) as Hcg by (apply Nat.Div0.div_lt_upper_bound; lia).
  split; [|intros [-> ->]; done].
  intros H.
  destruct (Nat.lt_trichotomy (r / p) a) as [Hlt|[Heq|Hgt]].
  - exfalso. assert (S (r / p) * g ≤ a * g) by (apply Nat.mul_le_mono_r; lia). lia.
  - subst a. lia.
  - exfalso. assert (S a * g ≤ r / p * g) by (apply Nat.mul_le_mono_r; lia). lia.
Qed.

Lemma set_block_rect H W (R : image) i j p (tile : image) :
  rect H W R → rect p p tile → j + p ≤ W → rect H W (np.set_block R i j p tile).
Proof.
  intros [HR1 HR2] [Ht1 Ht2] Hj. unfold np.set_block. split.
  - by rewrite length_imap.
  - apply Forall_lookup. intros r row Hrow.
    rewrite list_lookup_imap in Hrow.
    destruct (R !! r) as [row0|] eqn:Hr0; simplify_eq/=.
    pose proof (Forall_lookup_1 _ _ _ _ HR2 Hr0) as Hlen. simpl in Hlen.
    case_bool_decide as Hin; [|done].
    destruct (lookup_lt_is_Some_2 tile (r - i)) as [trow Htrow]; [lia|].
    rewrite Htrow. simpl.
    pose proof (Forall_lookup_1 _ _ _ _ Ht2 Htrow) as Hlen'. simpl in Hlen'.
    rewrite !length_app, length_take, length_drop. lia.
Qed.

Lemma set_block_px H W (R : image) i j p (tile : image) r c :
  rect H W R → rect p p tile → j + p ≤ W → r < H → c < W →
  px (np.set_block R i j p tile) r c
  = if decide (i ≤ r < i + p ∧ j ≤ c < j + p) then px tile (r - i) (c - j) else px R r c.
Proof.
  intros [HR1 HR2] [Ht1 Ht2] Hj Hr Hc. unfold px, np.set_block.
  rewrite list_lookup_imap.
  destruct (lookup_lt_is_Some_2 R r) as [row Hrow]; [lia|].
  rewrite Hrow. simpl.
  pose proof (Forall_lookup_1 _ _ _ _ HR2 Hrow) as Hlen. simpl in Hlen.
  case_bool_decide as Hin.
  - destruct (lookup_lt_is_Some_2 tile (r - i)) as [trow Htrow]; [lia|].
    rewrite Htrow. simpl.
    pose proof (Forall_lookup_1 _ _ _ _ Ht2 Htrow) as Hlen'. simpl in Hlen'.
    rewrite !lookup_app, length_take, Hlen', lookup_take, lookup_drop.
    replace (j `min` length row) with j by lia.
    destruct (decide (c < j)) as [Hcj|Hcj].
    + destruct (lookup_lt_is_Some_2 row c) as [x Hx]; [lia|]. rewrite Hx.
      case_decide; [lia|done].
    + destruct (decide (c < j + p)) as [Hcp|Hcp].
      * destruct (lookup_lt_is_Some_2 trow (c - j)) as [x Hx]; [lia|]. rewrite Hx.
        case_decide; [done|lia].
      * rewrite (proj2 (lookup_ge_None trow _)) by lia.
        case_decide; [lia|]. f_equal. lia.
  - case_decide; [lia|done].
Qed.

(** The pixel [(r, c)] of the tile shown in a slot. *)
Definition slot_px (positions : list nat) (tiles : list image) (slot r c : nat) : option Z :=
  k ← positions !! slot; t ← tiles !! k; px t r c.

(** The canvas after the first [n] tiles have been placed. *)
Definition painted (positions : list nat) (tiles : list image) (p g n : nat)
    (canvas R : image) : Prop :=
  rect (g * p) (g * p) R ∧
  ∀ r c, r < g * p → c < g * p →
    px R r c = if decide (r / p * g + c / p < n)
               then slot_px positions tiles (r / p * g + c / p) (r mod p) (c mod p)
               else px canvas r c.

Section placing.
Context (check : bool) (positions : list nat) (tiles : list image) (p g : nat) (canvas : image).
Hypothesis (Hp : 0 < p).
Hypothesis (Hslots : g * g ≤ length positions).
Hypothesis (Hpos : ∀ n k, n < g * g → positions !! n = Some k → k < length tiles).
Hypothesis (Htiles : Forall (rect p p) tiles).

Lemma place_tile_step a c0 R :
  a < g → c0 < g →
  painted positions tiles p g (a * g + c0) canvas R →
  ∃ R', np.place_tile check positions tiles (Z.of_nat p)
          (Z.of_nat (a * p)) (Z.of_nat (c0 * p)) (R, a * g + c0)
        = py.Ok (R', S (a * g + c0))
      ∧ painted positions tiles p g (S (a * g + c0)) canvas R'.
Proof.
  intros Ha Hc0 [HR Hpx].
  pose proof (flat_index_lt a c0 g g Ha Hc0) as Hn.
  destruct (lookup_lt_is_Some_2 positions (a * g + c0)) as [k Hk]; [lia|].
  destruct (lookup_lt_is_Some_2 tiles k) as [t Ht]; [by eapply Hpos|].
  pose proof (Forall_lookup_1 _ _ _ _ Htiles Ht) as Hrect.
  unfold np.place_tile, py.getitem. simpl. rewrite Hk. simpl. rewrite Ht. simpl.
  rewrite (shape_rect _ _ _ Hrect) by done.
  rewrite !Nat2Z.id, bool_decide_eq_true_2 by done.
  rewrite andb_false_r.
  replace (Z.to_nat (Z.of_nat (a * p))) with (a * p) by lia.
  replace (Z.to_nat (0 + Z.of_nat c0 * Z.of_nat p)) with (c0 * p) by lia.
  eexists. split; [done|].
  assert (c0 * p + p ≤ g * p) as Hfit.
  { assert (S c0 * p ≤ g * p) by (apply Nat.mul_le_mono_r; lia). lia. }
  split; [by eapply set_block_rect|].
  intros r c Hr Hc.
  rewrite (set_block_px _ _ _ _ _ _ _ _ _ HR Hrect Hfit Hr Hc), Hpx by done.
  pose proof (block_eq p g r c a c0 Hp Hc Hc0) as Hblock.
  pose proof (div_block p r a Hp) as Hrow.
  pose proof (div_block p c c0 Hp) as Hcol.
  destruct (decide (a * p ≤ r < a * p + p ∧ c0 * p ≤ c < c0 * p + p)) as [[Hr' Hc']|Hout].
  - apply Hrow in Hr'. apply Hcol in Hc'.
    rewrite (mod_block _ _ _ Hp Hr'), (mod_block _ _ _ Hp Hc').
    assert (r / p * g + c / p = a * g + c0) as -> by (by apply Hblock).
    rewrite decide_True by lia. unfold slot_px. rewrite Hk. simpl. by rewrite Ht.
  - assert (r / p * g + c / p ≠ a * g + c0) as Hne.
    { intros [E1 E2]%Hblock. apply Hrow in E1. apply Hcol in E2. tauto. }
    repeat case_decide; try done; lia.
Qed.

Lemma place_row a k c0 R :
  a < g → c0 + k = g →
  painted positions tiles p g (a * g + c0) canvas R →
  ∃ R', py.for_each ((λ c : nat, Z.of_nat (c * p)) <$> seq c0 k)
          (np.place_tile check positions tiles (Z.of_nat p) (Z.of_nat (a * p)))
          (R, a * g + c0)
        = py.Ok (R', a * g + c0 + k)
      ∧ painted positions tiles p g (a * g + c0 + k) canvas R'.
Proof.
  intros Ha. revert c0 R. induction k as [|k IH]; intros c0 R Hk HR; csimpl.
  - exists R. by rewrite Nat.add_0_r.
  - destruct (place_tile_step a c0 R Ha ltac:(lia) HR) as (R1 & -> & HR1). csimpl.
    replace (S (a * g + c0)) with (a * g + S c0) in * by lia.
    destruct (IH (S c0) R1 ltac:(lia) HR1) as (R2 & -> & HR2).
    exists R2. by replace (a * g + c0 + S k) with (a * g + S c0 + k) by lia.
Qed.

Lemma range_tiles n : 
  py.range 0 (Z.of_nat (n * p)) (Z.of_nat p)
  = py.Ok ((λ c : nat, Z.of_nat (c * p)) <$> seq 0 n).
Proof.
  unfold py.range. rewrite bool_decide_eq_false_2 by lia.
  rewrite bool_decide_eq_true_2 by lia. f_equal.
  replace (Z.to_nat ((Z.of_nat (n * p) - 0 + Z.of_nat p - 1) `div` Z.of_nat p)) with n.
  { apply list_fmap_ext. intros _ c _. lia. }
  rewrite Nat2Z.inj_mul.
  replace (Z.of_nat n * Z.of_nat p - 0 + Z.of_nat p - 1)%Z
    with ((Z.of_nat p - 1) + Z.of_nat n * Z.of_nat p)%Z by lia.
  rewrite Z.div_add, Z.div_small by lia. lia.
Qed.

Lemma place_rows k a0 R :
  a0 + k = g →
  painted positions tiles p g (a0 * g) canvas R →
  ∃ R', py.for_each ((λ c : nat, Z.of_nat (c * p)) <$> seq a0 k)
          (λ i st,
             py.for_each ((λ c : nat, Z.of_nat (c * p)) <$> seq 0 g)
               (np.place_tile check positions tiles (Z.of_nat p) i) st)
          (R, a0 * g)
        = py.Ok (R', g * g)
      ∧ painted positions tiles p g (g * g) canvas R'.
Proof.
  revert a0 R. induction k as [|k IH]; intros a0 R Hk HR; csimpl.
  - exists R. assert (a0 = g) as -> by lia. done.
  - replace (a0 * g) with (a0 * g + 0) in HR |- * by lia.
    destruct (place_row a0 g 0 R ltac:(lia) ltac:(lia) HR) as (R1 & -> & HR1). csimpl.
    replace (a0 * g + 0 + g) with (S a0 * g) in * by lia.
    by apply IH; [lia|].
Qed.

(** Composing from the tiles named by [positions]: the loops return, and
    the pixel at [(r, c)] comes from the tile of the slot that covers it. *)
Lemma place_tiles_spec :
  rect (g * p) (g * p) canvas →
  ∃ R, np.place_tiles check positions tiles (Z.of_nat p)
         (Z.of_nat (g * p)) (Z.of_nat (g * p)) canvas = py.Ok R
     ∧ rect (g * p) (g * p) R
     ∧ ∀ r c, r < g * p → c < g * p →
         px R r c = slot_px positions tiles (r / p * g + c / p) (r mod p) (c mod p).
Proof.
  intros Hcanvas. unfold np.place_tiles.
  rewrite range_tiles. csimpl.
  destruct (place_rows g 0 canvas ltac:(lia)) as (R & HR & [Hrect Hpx]).
  { split; [done|]. intros r c _ _. by rewrite decide_False by lia. }
  simpl in HR. rewrite HR. simpl. exists R. split; [done|]. split; [done|].
  intros r c Hr Hc. rewrite Hpx by done.
  rewrite decide_True; [done|].
  assert (r / p < g) by (apply Nat.Div0.div_lt_upper_bound; lia).
  assert (c / p < g) by (apply Nat.Div0.div_lt_upper_bound; lia).
  by apply flat_index_lt.
Qed.

End placing.

(* ===================================================================== *)
(** * The arrangement invariant of the engine *)
(* ===================================================================== *)

Import sessions main.

(** The arrangement of a session: the three entries shuffle writes. *)
Definition arrangement (s : session) : option (list nat) * option (list nat) * option (list image) :=
  (original_positions s, shuffled_positions s, patches s).

(** [cut_for g s]: the session holds an arrangement cut for a [g x g] grid:
    [g * g] tiles of edge [512 // g], the identity as original order, and a
    permutation of it as current order. *)
Definition cut_for (g : Z) (s : session) : Prop :=
  ∃ cur tiles,
    (1 ≤ g ≤ 512)%Z
    ∧ original_positions s = Some (seq 0 (Z.to_nat g * Z.to_nat g))
    ∧ shuffled_positions s = Some cur
    ∧ patches s = Some tiles
    ∧ cur ≡ₚ seq 0 (Z.to_nat g * Z.to_nat g)
    ∧ length tiles = Z.to_nat g * Z.to_nat g
    ∧ Forall (rect (Z.to_nat (512 `div` g)) (Z.to_nat (512 `div` g))) tiles.

Definition session_ok (s : session) : Prop :=
  arrangement s = (None, None, None) ∨ ∃ g, cut_for g s.

Definition world_ok (w : world) : Prop :=
  ∀ sid s, game_sessions (registry w) !! sid = Some s → session_ok s.

Section partition_facts.

Lemma tile_edge_pos (g : Z) : (1 ≤ g ≤ 512)%Z → (1 ≤ 512 `div` g)%Z.
Proof. intros. apply Z.div_le_lower_bound; lia. Qed.

(** The block of the image that slot [k] of a [g x g] grid covers. *)
Lemma slot_of_pixel p g r c :
  0 < p → c < g * p →
  (r / p * g + c / p) / g = r / p ∧ (r / p * g + c / p) mod g = c / p.
Proof.
  intros Hp Hc.
  assert (c / p < g) by (apply Nat.Div0.div_lt_upper_bound; lia).
  rewrite Nat.add_comm, Nat.div_add, Nat.Div0.mod_add by lia.
  rewrite Nat.div_small, Nat.mod_small by done. done.
Qed.

(** C6 at the level of arrays: tiles cut from a [g*p x g*p] image and put
    back in their original order give the image again. *)
Lemma tiles_round_trip g p (img : image) tiles :
  0 < g → 0 < p → rect (g * p) (g * p) img →
  np.to_patches img p = py.Ok tiles →
  np.place_tiles false (seq 0 (g * g)) tiles (Z.of_nat p)
    (Z.of_nat (g * p)) (Z.of_nat (g * p)) (np.zeros (g * p) (g * p)) = py.Ok img.
Proof.
  intros Hg Hp Himg Htiles.
  destruct (to_patches_spec g p img Hg Hp Himg) as (tiles' & E & Hlen & Hrect & Hpx).
  rewrite Htiles in E. injection E as <-.
  destruct (place_tiles_spec false (seq 0 (g * g)) tiles p g (np.zeros (g * p) (g * p)))
    as (R & -> & HR & HRpx); try done.
  - by rewrite length_seq.
  - intros n k Hn [-> _]%lookup_seq. lia.
  - apply rect_zeros.
  - f_equal. apply (image_ext (g * p) (g * p)); [done..|].
    intros r c Hr Hc. rewrite HRpx by done. unfold slot_px.
    assert (r / p < g) by (apply Nat.Div0.div_lt_upper_bound; lia).
    assert (c / p < g) by (apply Nat.Div0.div_lt_upper_bound; lia).
    pose proof (flat_index_lt (r / p) (c / p) g g ltac:(done) ltac:(done)).
    rewrite lookup_seq_lt by done. simpl.
    pose proof (Nat.mod_upper_bound r p ltac:(lia)).
    pose proof (Nat.mod_upper_bound c p ltac:(lia)).
    specialize (Hpx (r / p * g + c / p) (r mod p) (c mod p)).
    unfold mbind, option_bind in Hpx |- *. rewrite Hpx by done.
    destruct (slot_of_pixel p g r c Hp Hc) as [-> ->].
    f_equal.
    + pose proof (Nat.div_mod_eq r p). lia.
    + pose proof (Nat.div_mod_eq c p). lia.
Qed.

(** What [partition] returns for a grid size between 1 and 512: the source
    resized to [g * (512 // g)] on both axes and its [g * g] tiles. *)
Lemma partition_spec (e : env) (g : Z) (path : string) (src : image) :
  (1 ≤ g ≤ 512)%Z → files (pil e) path = Some src →
  let p := (512 `div` g)%Z in
  let img := resize_L (pil e) src (Z.to_nat (p * g)) in
  ∃ tiles,
    partition e g path = py.Ok (Some (p, img, tiles))
    ∧ rect (Z.to_nat g * Z.to_nat p) (Z.to_nat g * Z.to_nat p) img
    ∧ np.to_patches img (Z.to_nat p) = py.Ok tiles
    ∧ length tiles = Z.to_nat g * Z.to_nat g
    ∧ Forall (rect (Z.to_nat p) (Z.to_nat p)) tiles.
Proof.
  intros Hg Hsrc p img. subst p img.
  pose proof (tile_edge_pos g Hg) as Hp.
  set (p := (512 `div` g)%Z) in *.
  assert (rect (Z.to_nat g * Z.to_nat p) (Z.to_nat g * Z.to_nat p)
            (resize_L (pil e) src (Z.to_nat (p * g)))) as Hrect.
  { replace (Z.to_nat g * Z.to_nat p) with (Z.to_nat (p * g)) by lia.
    split; [apply resize_L_rows | apply resize_L_cols]. }
  destruct (to_patches_spec (Z.to_nat g) (Z.to_nat p) _ ltac:(lia) ltac:(lia) Hrect)
    as (tiles & Htiles & Hlen & Hall & _).
  exists tiles. split; [|done].
  unfold partition, py.floordiv. rewrite bool_decide_eq_false_2 by lia. csimpl.
  fold p. rewrite Hsrc.
  rewrite bool_decide_eq_false_2 by lia. csimpl.
  rewrite bool_decide_eq_false_2 by lia. csimpl. rewrite Htiles. done.
Qed.

End partition_facts.

Section invariant.

Lemma perm_seq_bounds (cur : list nat) n :
  cur ≡ₚ seq 0 n → length cur = n ∧ ∀ i k, cur !! i = Some k → k < n.
Proof.
  intros Hperm. split.
  - by rewrite Hperm, length_seq.
  - intros i k Hk. apply list_elem_of_lookup_2 in Hk.
    rewrite Hperm in Hk. apply elem_of_seq in Hk. lia.
Qed.

Lemma session_ok_ext (s s' : session) :
  arrangement s' = arrangement s → session_ok s → session_ok s'.
Proof.
  unfold session_ok, cut_for, arrangement. intros E. injection E as -> -> ->. done.
Qed.

Lemma session_ok_new : session_ok new_session.
Proof. by left. Qed.

Lemma world_ok_update sid s w :
  world_ok w → session_ok s → world_ok (update_session sid s w).
Proof.
  intros Hw Hs sid' s'. simpl. rewrite lookup_insert.
  case_decide; intros; simplify_eq; eauto.
Qed.

Lemma world_ok_save path now img w : world_ok w → world_ok (save_image path now img w).
Proof. intros Hw sid s. apply Hw. Qed.

Lemma find_session_Some session_id w sid s :
  find_session session_id w = Some (sid, s) ↔
  session_id = Some sid ∧ sid ≠ "" ∧ game_sessions (registry w) !! sid = Some s.
Proof.
  unfold find_session. split.
  - intros H. destruct (known session_id (registry w)) as [sid'|] eqn:Hk; simplify_eq/=.
    destruct (game_sessions (registry w) !! sid') as [s'|] eqn:Hs; simplify_eq/=.
    apply known_Some in Hk as (-> & Hne & _). done.
  - intros (-> & Hne & Hs).
    assert (known (Some sid) (registry w) = Some sid) as ->.
    { apply known_Some. eauto. }
    simpl. by rewrite Hs.
Qed.

Lemma find_session_ok session_id w sid s :
  world_ok w → find_session session_id w = Some (sid, s) → session_ok s.
Proof. intros Hw (_ & _ & Hs)%find_session_Some. eauto. Qed.

Lemma cleanup_ok now w :
  world_ok w →
  world_ok {| registry := cleanup_expired_sessions now (registry w);
              config_file := config_file w; temp_images := temp_images w |}.
Proof.
  intros Hw sid s. simpl. unfold cleanup_expired_sessions.
  rewrite clear_all_sessions. case_decide; [done|]. apply Hw.
Qed.

Lemma get_or_create_ok now uuid4 session_id w r :
  world_ok w → r = (get_or_create_session now uuid4 session_id (registry w)).2 →
  world_ok {| registry := r; config_file := config_file w; temp_images := temp_images w |}.
Proof.
  intros Hw -> sid s. unfold get_or_create_session.
  destruct (known session_id (registry w)); simpl; [apply Hw|].
  rewrite lookup_insert. case_decide; intros; simplify_eq; eauto using session_ok_new.
Qed.

Lemma get_image_ok e now uuid4 draw session_id w :
  world_ok w → world_ok (get_image e now uuid4 draw session_id w).2.
Proof.
  intros Hw. unfold get_image.
  set (w1 := cleanup_temp_images _ _ _).
  assert (world_ok w1) as Hw1 by (by apply cleanup_ok).
  destruct (get_or_create_session now uuid4 session_id (registry w1)) as [sid r] eqn:E.
  set (w2 := {| registry := r; config_file := _; temp_images := _ |}).
  assert (world_ok w2) as Hw2.
  { eapply (get_or_create_ok now uuid4 session_id w1); [done|]. by rewrite E. }
  destruct (game_sessions r !! sid) as [s|] eqn:Hs; [|done].
  assert (session_ok s) as Hok by (by eapply Hw2).
  repeat case_match; simpl; try done.
  - apply world_ok_update; [|by eapply session_ok_ext].
    apply world_ok_update; [done|by eapply session_ok_ext].
  - apply world_ok_update; [done|by eapply session_ok_ext].
Qed.

Lemma validate_ok session_id w : world_ok w → world_ok (validate_puzzle session_id w).2.
Proof. intros Hw. unfold validate_puzzle. by repeat case_match. Qed.

Lemma next_level_ok e session_id w : world_ok w → world_ok (next_level e session_id w).2.
Proof.
  intros Hw. unfold next_level.
  repeat case_match; simpl; try done; (apply world_ok_update; [done|by left]).
Qed.

Lemma update_config_ok e g c pw w : world_ok w → world_ok (update_config e g c pw w).2.
Proof. intros Hw. unfold update_config. by repeat case_match; simplify_eq/=. Qed.

Lemma swap_patches_ok e now i1 i2 session_id w :
  world_ok w → world_ok (swap_patches e now i1 i2 session_id w).2.
Proof.
  intros Hw. unfold swap_patches.
  destruct (find_session session_id w) as [[sid s]|] eqn:Hf; [|done].
  pose proof (find_session_ok _ _ _ _ Hw Hf) as Hs.
  destruct (shuffled_positions s) as [cur|] eqn:Hcur; [|done].
  destruct (patches s) as [tiles|] eqn:Htiles; [|done].
  destruct (py.floordiv _ _); [|done].
  case_match; [done|].
  destruct (py.swap_items cur _ _) as [cur'|] eqn:Hswap; [|done].
  assert (session_ok
            {| original_positions := original_positions s;
               shuffled_positions := Some cur';
               patches := patches s;
               current_level := current_level s;
               current_image_name := current_image_name s;
               start_time := start_time s;
               current_shuffled_image_path := current_shuffled_image_path s |}) as Hs'.
  { destruct Hs as [Hnone|(g & cur0 & tiles0 & Hg & Ho & Hc & Hp & Hperm & Hrest)].
    - unfold arrangement in Hnone. congruence.
    - right. exists g, cur', tiles0. simpl. simplify_eq.
      repeat split; try done; try tauto.
      rewrite <- Hperm. by eapply swap_items_perm. }
  case_match; simpl.
  all: assert (∀ s', arrangement s' = (original_positions s, Some cur', Some tiles) →
                 session_ok s') as Hany
    by (intros s' Hs''; eapply session_ok_ext; [|exact Hs'];
        rewrite Hs''; unfold arrangement; simpl; congruence).
  - apply world_ok_update; [|by apply Hany].
    apply world_ok_save, world_ok_update; [done|by apply Hany].
  - apply world_ok_update; [done|by apply Hany].
Qed.

(** What a shuffle that reaches the tiling stores in the session. *)
Lemma shuffled_session_cut (e : env) (g : Z) path src p img tiles rnd (s : session) :
  (1 ≤ g ≤ 512)%Z → files (pil e) path = Some src →
  partition e g path = py.Ok (Some (p, img, tiles)) →
  cut_for g
    {| original_positions := Some (seq 0 (length tiles));
       shuffled_positions := Some (py.random_shuffle rnd (seq 0 (length tiles)));
       patches := Some tiles;
       current_level := current_level s;
       current_image_name := current_image_name s;
       start_time := start_time s;
       current_shuffled_image_path := current_shuffled_image_path s |}.
Proof.
  intros Hg Hsrc Hpart.
  destruct (partition_spec e g path src Hg Hsrc) as (tiles' & E & _ & _ & Hlen & Hall).
  rewrite Hpart in E. simplify_eq.
  exists (py.random_shuffle rnd (seq 0 (length tiles'))), tiles'. simpl.
  rewrite Hlen. repeat split; try done; try lia.
  apply random_shuffle_perm.
Qed.

(** A partition that succeeds was asked for a grid size between 1 and 512. *)
Lemma partition_Some_grid (e : env) (g : Z) path r :
  partition e g path = py.Ok (Some r) → (1 ≤ g ≤ 512)%Z ∧ is_Some (files (pil e) path).
Proof.
  unfold partition, py.floordiv. case_bool_decide as Hz; csimpl; [done|].
  destruct (files (pil e) path) as [src|]; [|done].
  destruct (bool_decide (512 `div` g * g ≤ 0)%Z) eqn:Ht; csimpl; [done|].
  destruct (bool_decide (512 `div` g < 0)%Z) eqn:Hp; csimpl; [done|].
  apply bool_decide_eq_false in Ht, Hp.
  intros _. split; [|by eexists].
  destruct (decide (g < 0)%Z) as [Hneg|Hpos].
  - exfalso. apply Hp. pose proof (Z.div_mod 512 g Hz).
    pose proof (Z.mod_neg_bound 512 g Hneg). nia.
  - split; [lia|]. destruct (decide (g ≤ 512)%Z) as [|Hbig]; [done|].
    rewrite Z.div_small in Ht by lia. lia.
Qed.

Lemma shuffle_image_ok e now rnd session_id w :
  world_ok w → world_ok (shuffle_image e now rnd session_id w).2.
Proof.
  intros Hw. unfold shuffle_image.
  destruct (find_session session_id w) as [[sid s]|] eqn:Hf; [|done].
  destruct (current_image_name s) as [name|]; [|done].
  destruct (current_level s ≫= _) as [[level images]|]; [|done].
  case_match; [done|].
  destruct (partition e _ _) as [[[[p img] tiles]|]|] eqn:Hpart; [|done..].
  destruct (partition_Some_grid _ _ _ _ Hpart) as [Hg [src Hsrc]].
  pose proof (shuffled_session_cut e _ _ src p img tiles rnd s Hg Hsrc Hpart) as Hcut.
  destruct (np.shape img) as [h wd].
  assert (session_ok
            {| original_positions := Some (seq 0 (length tiles));
               shuffled_positions := Some (py.random_shuffle rnd (seq 0 (length tiles)));
               patches := Some tiles;
               current_level := current_level s;
               current_image_name := current_image_name s;
               start_time := start_time s;
               current_shuffled_image_path := current_shuffled_image_path s |}) as Hs'
    by (right; eauto).
  case_match; simpl.
  - apply world_ok_update; [by apply world_ok_save, world_ok_update|].
    by eapply session_ok_ext; [|exact Hs'].
  - by apply world_ok_update.
Qed.

Lemma handle_ok e i req w : world_ok w → world_ok (handle e i req w).2.
Proof.
  destruct req; simpl;
    eauto using get_image_ok, shuffle_image_ok, swap_patches_ok, validate_ok,
      next_level_ok, update_config_ok.
Qed.

Lemma reachable_ok w : reachable w → world_ok w.
Proof.
  induction 1 as [cfg tmp|e i req w _ IH].
  - intros sid s. simpl. by rewrite lookup_empty.
  - by apply handle_ok.
Qed.

End invariant.

(* ===================================================================== *)
(** * The validator, the permutation invariant and the swap engine *)
(* ===================================================================== *)

Section swap_facts.

Lemma is_Some_default {X} (o : option X) (d : X) : is_Some o → o = Some (default d o).
Proof. by intros [x ->]. Qed.

(** What an accepted swap request does to the world. *)
Lemma swap_patches_effect e now a b session_id w sid s cur tiles p :
  find_session session_id w = Some (sid, s) →
  shuffled_positions s = Some cur → patches s = Some tiles →
  py.floordiv 512 (config.get_grid_size (config_file w)) = py.Ok p →
  (0 ≤ a < Z.of_nat (length cur))%Z → (0 ≤ b < Z.of_nat (length cur))%Z →
  ∃ cur' s',
    py.swap_items cur (Z.to_nat a) (Z.to_nat b) = Some cur'
    ∧ game_sessions (registry (swap_patches e now a b session_id w).2) !! sid = Some s'
    ∧ arrangement s' = (original_positions s, Some cur', Some tiles)
    ∧ current_level s' = current_level s
    ∧ current_image_name s' = current_image_name s
    ∧ config_file (swap_patches e now a b session_id w).2 = config_file w
    ∧ (∀ other, other ≠ sid →
         game_sessions (registry (swap_patches e now a b session_id w).2) !! other
         = game_sessions (registry w) !! other)
    ∧ match np.place_tiles true cur' tiles p
              (p * config.get_grid_size (config_file w))
              (p * config.get_grid_size (config_file w))
              (np.zeros (Z.to_nat (p * config.get_grid_size (config_file w)))
                        (Z.to_nat (p * config.get_grid_size (config_file w)))) with
      | py.Ok _ => ∃ url, (swap_patches e now a b session_id w).1 = swap_response url
      | py.Raise ex => (swap_patches e now a b session_id w).1 = failure_response "Swap failed" ex
      end.
Proof.
  intros Hf Hcur Htiles Hp Ha Hb.
  destruct (swap_items_Some cur (Z.to_nat a) (Z.to_nat b)) as [cur' Hswap]; [lia..|].
  set (g := config.get_grid_size (config_file w)) in *.
  exists cur'.
  destruct (np.place_tiles true cur' tiles p (p * g) (p * g)
              (np.zeros (Z.to_nat (p * g)) (Z.to_nat (p * g)))) as [img|ex] eqn:E.
  all: unfold swap_patches; rewrite Hf, Hcur, Htiles; fold g; rewrite Hp.
  all: rewrite (bool_decide_eq_false_2 (a < 0)%Z), (bool_decide_eq_false_2 (b < 0)%Z),
    (bool_decide_eq_false_2 (a >= _)%Z), (bool_decide_eq_false_2 (b >= _)%Z) by lia.
  all: cbv zeta; simpl; rewrite Hswap, E; simpl.
  all: eexists; rewrite lookup_insert_eq.
  all: split_and!; try done.
  all: try (intros other Hne; simpl; by rewrite !lookup_insert_ne by done).
  all: by eexists.
Qed.

End swap_facts.

(** C1. In every world the server can reach, for a session that holds an
    arrangement, the validator answers [is_correct = true] exactly when the
    current order is the identity ([current[i] = i] for every slot [i]), and
    [false] for every other order; it changes nothing. *)
Theorem validate_iff_identity (w : world) (session_id : option string)
    (sid : string) (s : session) (cur : list nat) :
  reachable w →
  find_session session_id w = Some (sid, s) →
  shuffled_positions s = Some cur →
  ∃ b, validate_puzzle session_id w = (validate_response b, w)
     ∧ (b = true ↔ ∀ i, i < length cur → cur !! i = Some i)
     ∧ (b = false ↔ cur ≠ seq 0 (length cur)).
Proof.
  intros Hreach Hf Hcur.
  pose proof (find_session_ok _ _ _ _ (reachable_ok w Hreach) Hf) as Hs.
  destruct Hs as [Hnone|(g & cur0 & tiles & Hg & Ho & Hc & Hp & Hperm & _)].
  { unfold arrangement in Hnone. congruence. }
  assert (cur0 = cur) as -> by congruence.
  destruct (perm_seq_bounds _ _ Hperm) as [Hlen _].
  unfold validate_puzzle. rewrite Hf, Ho, Hcur. eexists. split; [done|].
  rewrite Hlen. split.
  - rewrite bool_decide_eq_true. split.
    + intros E i Hi. rewrite E. by apply lookup_seq_lt.
    + intros Hid. apply list_eq. intros i.
      destruct (decide (i < Z.to_nat g * Z.to_nat g)) as [Hi|Hi].
      * by rewrite Hid, lookup_seq_lt.
      * rewrite !(proj2 (lookup_ge_None _ _)); [done|rewrite length_seq; lia|lia].
  - by rewrite bool_decide_eq_false.
Qed.

(** C2. In every world the server can reach, the current order of a session
    is a permutation of [0 .. N*N - 1] for some grid dimension [N], as long
    as the list of tiles and as the original order, which is the identity:
    the shuffle, every swap and every other request keep it so. *)
Theorem arrangement_is_permutation (w : world) (sid : string) (s : session)
    (cur : list nat) :
  reachable w →
  game_sessions (registry w) !! sid = Some s →
  shuffled_positions s = Some cur →
  ∃ (n : nat) (tiles : list image),
    patches s = Some tiles
    ∧ original_positions s = Some (seq 0 (n * n))
    ∧ length tiles = n * n
    ∧ length cur = length tiles
    ∧ cur ≡ₚ seq 0 (n * n)
    ∧ NoDup cur
    ∧ ∀ k, k ∈ cur ↔ k < n * n.
Proof.
  intros Hreach Hs Hcur.
  destruct (reachable_ok w Hreach sid s Hs)
    as [Hnone|(g & cur0 & tiles & Hg & Ho & Hc & Hp & Hperm & Hlen & _)].
  { unfold arrangement in Hnone. congruence. }
  assert (cur0 = cur) as -> by congruence.
  exists (Z.to_nat g), tiles.
  destruct (perm_seq_bounds _ _ Hperm) as [Hlen' _].
  repeat split; try done; try congruence.
  - rewrite Hperm. apply NoDup_seq.
  - rewrite Hperm, elem_of_seq. lia.
  - rewrite Hperm, elem_of_seq. lia.
Qed.

(** C3. For a session that holds an arrangement and two slot indices in
    range, two successive swap requests with the same indices leave the
    arrangement (original order, current order and tiles) exactly as it was
    before the first; and unless the configured grid size is 0, the first
    request does exchange the two slots. *)
Theorem swap_twice_restores (e : env) (now1 now2 a b : Z)
    (session_id : option string) (w : world) (sid : string) (s : session)
    (cur : list nat) (tiles : list image) :
  find_session session_id w = Some (sid, s) →
  shuffled_positions s = Some cur →
  patches s = Some tiles →
  (0 ≤ a < Z.of_nat (length cur))%Z →
  (0 ≤ b < Z.of_nat (length cur))%Z →
  let w1 := (swap_patches e now1 a b session_id w).2 in
  let w2 := (swap_patches e now2 a b session_id w1).2 in
  arrangement <$> game_sessions (registry w2) !! sid = Some (arrangement s)
  ∧ (config.get_grid_size (config_file w) ≠ 0%Z →
     arrangement <$> game_sessions (registry w1) !! sid
     = Some (original_positions s,
             py.swap_items cur (Z.to_nat a) (Z.to_nat b),
             Some tiles)).
Proof.
  intros Hf Hcur Htiles Ha Hb w1 w2. subst w1 w2.
  pose proof Hf as (-> & Hne & Hs)%find_session_Some.
  destruct (py.floordiv 512 (config.get_grid_size (config_file w))) as [p|ex] eqn:Hp.
  - destruct (swap_patches_effect e now1 a b (Some sid) w sid s cur tiles p
                Hf Hcur Htiles Hp Ha Hb)
      as (cur' & s' & Hswap & Hs' & Harr & _ & _ & Hcfg & _ & _).
    set (w1 := (swap_patches e now1 a b (Some sid) w).2) in *.
    injection Harr as Ho' Hc' Ht'.
    assert (find_session (Some sid) w1 = Some (sid, s')) as Hf'.
    { by apply find_session_Some. }
    pose proof (swap_items_length _ _ _ _ Hswap) as Hlen.
    destruct (swap_patches_effect e now2 a b (Some sid) w1 sid s' cur' tiles p
                Hf' Hc' Ht' ltac:(by rewrite Hcfg) ltac:(lia) ltac:(lia))
      as (cur'' & s'' & Hswap' & Hs'' & Harr' & _).
    rewrite Hs'', Hs'. simpl. rewrite Harr'. split.
    + apply swap_items_twice in Hswap. rewrite Hswap in Hswap'.
      unfold arrangement. congruence.
    + intros _. unfold arrangement. congruence.
  - assert (config.get_grid_size (config_file w) = 0%Z) as Hz.
    { unfold py.floordiv in Hp. by case_bool_decide. }
    assert (swap_patches e now1 a b (Some sid) w = (failure_response "Swap failed" ex, w)) as E1.
    { unfold swap_patches. by rewrite Hf, Hcur, Htiles, Hp. }
    rewrite E1. simpl.
    assert (swap_patches e now2 a b (Some sid) w = (failure_response "Swap failed" ex, w)) as E2.
    { unfold swap_patches. by rewrite Hf, Hcur, Htiles, Hp. }
    rewrite E2. simpl. rewrite Hs. simpl. split; [done|]. intros Hnz. by destruct Hnz.
Qed.

(** C8, as the code has it. For a session designated by the request:
    - if it holds no arrangement (no current order or no tiles) the swap
      answers 400 "No puzzle to swap" and changes nothing;
    - if it holds an arrangement cut for the grid size that is configured
      when the swap is requested ([N * N] slots, tiles of edge [512 // N]):
      an index outside [[0, N * N)] gives 400 "Invalid indices" and changes
      nothing; two indices in range give a 200 response, the two slots are
      exchanged and nothing else of the arrangement changes; with equal
      indices the arrangement is unchanged. *)
Theorem swap_preconditions (e : env) (now a b : Z) (session_id : option string)
    (w : world) (sid : string) (s : session) :
  find_session session_id w = Some (sid, s) →
  (shuffled_positions s = None ∨ patches s = None →
     swap_patches e now a b session_id w = (error_response 400 "No puzzle to swap", w))
  ∧ (∀ cur,
       cut_for (config.get_grid_size (config_file w)) s →
       shuffled_positions s = Some cur →
       let n := Z.to_nat (config.get_grid_size (config_file w)) in
       length cur = n * n
       ∧ (¬ ((0 ≤ a < Z.of_nat (n * n))%Z ∧ (0 ≤ b < Z.of_nat (n * n))%Z) →
            swap_patches e now a b session_id w = (error_response 400 "Invalid indices", w))
       ∧ ((0 ≤ a < Z.of_nat (n * n))%Z ∧ (0 ≤ b < Z.of_nat (n * n))%Z →
            ∃ url cur' s',
              (swap_patches e now a b session_id w).1 = swap_response url
              ∧ status (swap_patches e now a b session_id w).1 = 200%Z
              ∧ py.swap_items cur (Z.to_nat a) (Z.to_nat b) = Some cur'
              ∧ game_sessions (registry (swap_patches e now a b session_id w).2) !! sid
                = Some s'
              ∧ arrangement s' = (original_positions s, Some cur', patches s)
              ∧ (a = b → arrangement s' = arrangement s))).
Proof.
  intros Hf. split.
  - intros Hnone. unfold swap_patches. rewrite Hf.
    destruct Hnone as [-> | ->]; [done|]. by destruct (shuffled_positions s).
  - intros cur (cur0 & tiles & Hg & Ho & Hc & Hp & Hperm & Hlen & Hrect) Hcur n.
    assert (cur0 = cur) as -> by congruence.
    set (g := config.get_grid_size (config_file w)) in *.
    destruct (perm_seq_bounds _ _ Hperm) as [Hlen' Hbound].
    fold n in Hlen', Hbound, Hperm, Hlen, Ho.
    pose proof (tile_edge_pos g Hg) as Hedge.
    assert (py.floordiv 512 g = py.Ok (512 `div` g)%Z) as Hdiv.
    { unfold py.floordiv. by rewrite bool_decide_eq_false_2 by lia. }
    split; [done|]. split.
    + intros Hout. unfold swap_patches. rewrite Hf, Hcur, Hp. fold g. rewrite Hdiv.
      rewrite Hlen'.
      destruct (bool_decide (a < 0)%Z) eqn:E1; [done|].
      destruct (bool_decide (b < 0)%Z) eqn:E2; [done|].
      destruct (bool_decide (a >= Z.of_nat (n * n))%Z) eqn:E3; [done|].
      destruct (bool_decide (b >= Z.of_nat (n * n))%Z) eqn:E4; [done|].
      apply bool_decide_eq_false in E1, E2, E3, E4. lia.
    + intros [Ha Hb].
      destruct (swap_patches_effect e now a b session_id w sid s cur tiles _
                  Hf Hcur Hp Hdiv ltac:(lia) ltac:(lia))
        as (cur' & s' & Hswap & Hs' & Harr & _ & _ & _ & _ & Hresp).
      fold g in Hresp.
      (* the image is composed without an exception *)
      destruct (place_tiles_spec true cur' tiles (Z.to_nat (512 `div` g)) n
                  (np.zeros (n * Z.to_nat (512 `div` g)) (n * Z.to_nat (512 `div` g))))
        as (R & HR & _); try done; try lia.
      { rewrite (swap_items_length _ _ _ _ Hswap). lia. }
      { intros i k _ Hk. rewrite Hlen.
        apply list_elem_of_lookup_2 in Hk.
        rewrite (swap_items_perm _ _ _ _ Hswap), Hperm in Hk.
        apply elem_of_seq in Hk. lia. }
      { apply rect_zeros. }
      rewrite Z2Nat.id in HR by lia.
      replace (Z.of_nat (n * Z.to_nat (512 `div` g))) with (512 `div` g * g)%Z in HR by lia.
      replace (n * Z.to_nat (512 `div` g)) with (Z.to_nat (512 `div` g * g)) in HR by lia.
      rewrite HR in Hresp. destruct Hresp as [url Hurl].
      exists url, cur', s'. rewrite Hurl, Hp. split_and!; try done.
      intros ->. apply swap_items_same in Hswap as ->.
      rewrite Harr. unfold arrangement. congruence.
Qed.

(* ===================================================================== *)
(** * Level progression *)
(* ===================================================================== *)

Lemma index_of_lt level levels i : index_of level levels = Some i → i < length levels.
Proof.
  revert i. induction levels as [|l levels IH]; intros i; simpl; [done|].
  case_bool_decide; [intros; simplify_eq; lia|].
  destruct (index_of level levels) as [j|]; intros; simplify_eq/=.
  specialize (IH j eq_refl). lia.
Qed.

(** C5, as the code has it. When the session is at the last level of the
    catalog, [next_level] answers "You have completed all levels!" with a
    null level in the response and leaves the world as it is: the session's
    own level entry still names the last level. *)
Theorem next_level_at_last_level (e : env) (session_id : option string) (w : world)
    (sid : string) (s : session) (l : string) :
  find_session session_id w = Some (sid, s) →
  current_level s = Some l →
  index_of l (image_metadata e).*1 = Some (length (image_metadata e).*1 - 1) →
  next_level e session_id w = (level_response "You have completed all levels!" None, w)
  ∧ current_level <$> game_sessions (registry (next_level e session_id w).2) !! sid
    = Some (Some l).
Proof.
  intros Hf Hl Hlast.
  pose proof (index_of_lt _ _ _ Hlast) as Hlen.
  assert (next_level e session_id w
          = (level_response "You have completed all levels!" None, w)) as E.
  { unfold next_level. rewrite Hf, Hl. simpl. rewrite Hlast.
    by rewrite bool_decide_eq_false_2 by lia. }
  rewrite E. split; [done|]. simpl.
  apply find_session_Some in Hf as (_ & _ & ->). simpl. by rewrite Hl.
Qed.

(* ===================================================================== *)
(** * Grid size: where it is checked *)
(* ===================================================================== *)

(** C7, as the code has it. A grid size outside [[2, 10]] is refused where
    it is configured: [update_config] leaves the world unchanged and, for
    the right password, answers 400 "Grid size must be between 2 and 10"
    (nothing is clamped). The partitioner has no range check of its own:
    for an image that exists it raises only for a grid size of 0, below 0 or
    above 512, and cuts [N * N] tiles for every other [N]. *)
Theorem grid_size_checked_at_configuration (e : env) (g : Z) (c : option Z)
    (pw : string) (w : world) (path : string) (src : image) :
  (g < 2 ∨ 10 < g)%Z →
  (update_config e (Some g) c pw w).2 = w
  ∧ (pw = ADMIN_PASSWORD e →
     update_config e (Some g) c pw w
     = (error_response 400 "Grid size must be between 2 and 10", w))
  ∧ (files (pil e) path = Some src →
     (g = 0%Z → partition e g path = py.Raise py.ZeroDivisionError)
     ∧ ((g < 0 ∨ 512 < g)%Z → partition e g path = py.Raise py.ValueError)
     ∧ ((1 ≤ g ≤ 512)%Z →
        ∃ img tiles, partition e g path = py.Ok (Some ((512 `div` g)%Z, img, tiles))
                     ∧ length tiles = Z.to_nat g * Z.to_nat g)).
Proof.
  intros Hout.
  assert (bool_decide (g < 2)%Z || bool_decide (g > 10)%Z = true) as Hbad.
  { apply orb_true_iff. rewrite !bool_decide_eq_true. lia. }
  split_and!.
  - unfold update_config.
    destruct (bool_decide (pw ≠ ADMIN_PASSWORD e)); [done|]. by rewrite Hbad.
  - intros ->. unfold update_config.
    rewrite bool_decide_eq_false_2 by (by intros []). by rewrite Hbad.
  - intros Hsrc. split_and!.
    + intros ->. done.
    + intros Hg. unfold partition, py.floordiv.
      rewrite bool_decide_eq_false_2 by lia. csimpl. rewrite Hsrc.
      destruct Hg as [Hneg|Hbig].
      * assert (512 `div` g < 0)%Z as Hp.
        { pose proof (Z.div_mod 512 g ltac:(lia)).
          pose proof (Z.mod_neg_bound 512 g Hneg). nia. }
        assert (0 < 512 `div` g * g)%Z by (apply Z.mul_neg_neg; lia).
        rewrite (bool_decide_eq_false_2 (512 `div` g * g ≤ 0)%Z) by lia. csimpl.
        by rewrite bool_decide_eq_true_2 by done.
      * rewrite Z.div_small by lia.
        by rewrite (bool_decide_eq_true_2 (0 * g ≤ 0)%Z) by lia.
    + intros Hg.
      destruct (partition_spec e g path src Hg Hsrc) as (tiles & E & _ & _ & Hlen & _).
      eauto.
Qed.

(* ===================================================================== *)
(** * The tile partitioner *)
(* ===================================================================== *)

(** C6, as the code has it. For every source image that exists and every
    grid dimension [N] in [[2, 10]], the partitioner resizes the source to
    [N * tileEdge] on both axes with [tileEdge = 512 // N] (whatever the size
    of the source), cuts exactly [N * N] tiles, each [tileEdge x tileEdge],
    and placing the tiles back in row-major order gives the resized image
    again. *)
Theorem partition_round_trip (e : env) (g : Z) (path : string) (src : image) :
  (2 ≤ g ≤ 10)%Z →
  files (pil e) path = Some src →
  let edge := (512 `div` g)%Z in
  let img := resize_L (pil e) src (Z.to_nat (edge * g)) in
  ∃ tiles,
    partition e g path = py.Ok (Some (edge, img, tiles))
    ∧ rect (Z.to_nat (edge * g)) (Z.to_nat (edge * g)) img
    ∧ length tiles = Z.to_nat (g * g)
    ∧ Forall (rect (Z.to_nat edge) (Z.to_nat edge)) tiles
    ∧ np.place_tiles false (seq 0 (Z.to_nat (g * g))) tiles edge
        (edge * g) (edge * g)
        (np.zeros (Z.to_nat (edge * g)) (Z.to_nat (edge * g)))
      = py.Ok img.
Proof.
  intros Hg Hsrc edge img.
  destruct (partition_spec e g path src ltac:(lia) Hsrc)
    as (tiles & E & Hrect & Hcut & Hlen & Hall).
  fold edge in E, Hrect, Hcut, Hall. fold img in E, Hrect, Hcut.
  pose proof (tile_edge_pos g ltac:(lia)) as Hedge. fold edge in Hedge.
  exists tiles.
  pose proof (tiles_round_trip (Z.to_nat g) (Z.to_nat edge) img tiles
                ltac:(lia) ltac:(lia) Hrect Hcut) as Hround.
  rewrite Z2Nat.id in Hround by lia.
  replace (Z.of_nat (Z.to_nat g * Z.to_nat edge)) with (edge * g)%Z in Hround by lia.
  replace (Z.to_nat g * Z.to_nat edge) with (Z.to_nat (edge * g)) in Hround, Hrect by lia.
  replace (Z.to_nat g * Z.to_nat g) with (Z.to_nat (g * g)) in Hround, Hlen by lia.
  done.
Qed.

(* ===================================================================== *)
(** * Saved scores *)
(* ===================================================================== *)

(** The value [database.save_score] stores for a raw score: the double
    [score * (weight / num_questions)] cut to an integer. *)
Definition stored_score (score weight num_questions : Z) : py.result Z :=
  weighted_score score weight num_questions ≫= py.int_of_float.

(** Whether, for every level of [label_weights] and every raw score of
    absolute value at most [bound], the stored value is the quotient of
    [score * weight] by [num_questions] rounded towards zero. *)
Definition truncation_agrees (bound : Z) : bool :=
  forallb (λ entry : string * (Z * Z),
    forallb (λ score,
      match stored_score score entry.2.1 entry.2.2 with
      | py.Ok z => bool_decide (z = (score * entry.2.1) `quot` entry.2.2)%Z
      | py.Raise _ => false
      end) (seqZ (- bound) (2 * bound + 1))) label_weights.

Section score_facts.
Import database.

Lemma truncation_agrees_checked : truncation_agrees 1000 = true.
Proof. vm_compute. reflexivity. Qed.

Lemma weights_of_In level table wn :
  weights_of level table = Some wn → (level, wn) ∈ table.
Proof.
  induction table as [|[l x] table IH]; simpl; [done|].
  case_bool_decide; intros; simplify_eq; [left|right; auto].
Qed.

Lemma truncation_agrees_spec bound level score weight nq :
  truncation_agrees bound = true →
  weights_of level label_weights = Some (weight, nq) →
  (- bound ≤ score ≤ bound)%Z →
  stored_score score weight nq = py.Ok ((score * weight) `quot` nq)%Z.
Proof.
  intros Hall Hl%weights_of_In%list_elem_of_In Hs.
  unfold truncation_agrees in Hall.
  rewrite forallb_forall in Hall. specialize (Hall _ Hl).
  cbn beta iota delta [fst snd] in Hall.
  rewrite forallb_forall in Hall. specialize (Hall score).
  assert (In score (seqZ (- bound) (2 * bound + 1))) as Hin.
  { apply list_elem_of_In, elem_of_seqZ. lia. }
  specialize (Hall Hin).
  destruct (stored_score score weight nq) as [z|ex]; [|done].
  f_equal. by eapply bool_decide_eq_true_1.
Qed.

Lemma stored_score_truncates level score weight nq :
  weights_of level label_weights = Some (weight, nq) →
  (-1000 ≤ score ≤ 1000)%Z →
  stored_score score weight nq = py.Ok ((score * weight) `quot` nq)%Z.
Proof.
  intros Hl Hs.
  exact (truncation_agrees_spec 1000 level score weight nq
           truncation_agrees_checked Hl Hs).
Qed.

Lemma sum_scores_snoc pid rows r :
  sum_scores pid (rows ++ [r])
  = (sum_scores pid rows + (if decide (row_player_id r = pid) then row_score r else 0))%Z.
Proof.
  unfold sum_scores. rewrite filter_app, fmap_app, foldr_app.
  rewrite filter_cons, filter_nil.
  assert (∀ (l : list Z) (z : Z), foldr Z.add z l = (foldr Z.add 0 l + z)%Z) as Hfold.
  { induction l as [|x l IH]; intros z; simpl; [lia|]. rewrite IH. lia. }
  rewrite Hfold. case_decide; simpl; lia.
Qed.

End score_facts.

(** C10. For a registered level and a raw score between -1000 and 1000, the
    value written to the [scores] table is the integer part (rounding
    towards zero) of [score * weight / num_questions]: the double
    [score * (weight / num_questions)] computed by the endpoint is cut to an
    integer by the database layer. The player's cumulative total is the
    previous sum of the player's stored values plus that integer, so the
    fraction is lost before the addition. *)
Theorem saved_score_is_truncated (now : Z) (pid lvl : string) (score weight nq : Z)
    (d : database.db) :
  pid ≠ "" →
  weights_of lvl label_weights = Some (weight, nq) →
  (-1000 ≤ score ≤ 1000)%Z →
  let stored := ((score * weight) `quot` nq)%Z in
  let r := save_score now (Some pid) (Some lvl) (Some score) d in
  stored_score score weight nq = py.Ok stored
  ∧ database.scores r.2
    = database.scores d
      ++ [ {| database.row_player_id := pid; database.row_level := lvl;
              database.row_score := stored; database.row_timestamp := now |} ]
  ∧ (∀ name old, database.players d !! pid = Some (name, old) →
       r.1 = score_response (database.sum_scores pid (database.scores d) + stored)
       ∧ database.players r.2 !! pid
         = Some (name, (database.sum_scores pid (database.scores d) + stored)%Z))
  ∧ (database.players d !! pid = None →
       r.1 = score_response 0 ∧ database.players r.2 = database.players d).
Proof.
  intros Hpid Hlvl Hscore stored r.
  pose proof (stored_score_truncates lvl score weight nq Hlvl Hscore) as Hstored.
  fold stored in Hstored. split; [done|].
  assert (lvl ≠ "") as Hne by (intros ->; done).
  unfold stored_score in Hstored.
  destruct (weighted_score score weight nq) as [ws|ex] eqn:Hws; [|done].
  csimpl in Hstored.
  assert (py.truthy (Some pid) = true) as Htp by (by apply bool_decide_eq_true_2).
  assert (py.truthy (Some lvl) = true) as Htl by (by apply bool_decide_eq_true_2).
  subst r. unfold save_score. rewrite Htp, Htl, Hlvl, Hws.
  cbn [negb orb]. unfold database.save_score. rewrite Hstored.
  destruct (database.players d !! pid) as [[name old]|] eqn:Hp; simpl.
  - rewrite lookup_insert_eq. simpl. split; [done|]. split; [|done].
    intros name' old' ?. simplify_eq.
    rewrite sum_scores_snoc. simpl. by rewrite decide_True.
  - rewrite Hp. simpl. split; [done|]. split; [done|]. done.
Qed.

(* ===================================================================== *)
(** * The concrete server: facts, instances and counterexamples *)
(* ===================================================================== *)

(** A session that satisfies the invariant and holds [N * N] slots is cut
    for [N]. *)
Lemma session_ok_cut (s : session) (cur : list nat) (g : Z) :
  session_ok s → shuffled_positions s = Some cur →
  length cur = Z.to_nat g * Z.to_nat g → (1 ≤ g)%Z → cut_for g s.
Proof.
  intros [Hnone|(g' & Hcut)] Hcur Hlen Hg.
  - unfold arrangement in Hnone. congruence.
  - assert (g' = g) as ->; [|done].
    destruct Hcut as (cur' & tiles & Hg' & _ & Hc & _ & Hperm & _).
    assert (cur' = cur) as -> by congruence.
    apply Permutation_length in Hperm. rewrite length_seq in Hperm. nia.
Qed.

Section example_facts.
Import example.

Lemma reachable_fetched : reachable fetched.
Proof. unfold fetched. apply reachable_step, reachable_start. Qed.

Lemma reachable_shuffled : reachable shuffled.
Proof. unfold shuffled. apply reachable_step, reachable_fetched. Qed.

Lemma reachable_regridded : reachable regridded.
Proof. unfold regridded. apply reachable_step, reachable_shuffled. Qed.

Lemma reachable_level2 : reachable level2.
Proof. unfold level2. apply reachable_step, reachable_fetched. Qed.

Lemma reachable_fetched11 : reachable fetched11.
Proof. unfold fetched11. apply reachable_step, reachable_start. Qed.

(** From here on the worlds of the example are only evaluated as a whole. *)
Opaque fetched shuffled regridded level2 fetched11.

(** The client's session exists in a world as soon as the lookup computes
    to some session. *)
Lemma session_of_found (w : world) :
  bool_decide (is_Some (game_sessions (registry w) !! sid0)) = true →
  find_session token w = Some (sid0, session_of w)
  ∧ game_sessions (registry w) !! sid0 = Some (session_of w).
Proof.
  intros [s Hs]%bool_decide_eq_true. unfold session_of. rewrite Hs. simpl.
  split; [|done]. by apply find_session_Some.
Qed.

Lemma shuffled_session :
  find_session token shuffled = Some (sid0, session_of shuffled)
  ∧ game_sessions (registry shuffled) !! sid0 = Some (session_of shuffled).
Proof. apply session_of_found. vm_compute. reflexivity. Qed.

Lemma shuffled_order : shuffled_positions (session_of shuffled) = Some [1; 2; 3; 0].
Proof. vm_compute. reflexivity. Qed.

Lemma shuffled_tiles_some :
  bool_decide (is_Some (patches (session_of shuffled))) = true.
Proof. vm_compute. reflexivity. Qed.

Lemma shuffled_tiles :
  patches (session_of shuffled) = Some (default [] (patches (session_of shuffled))).
Proof.
  pose proof shuffled_tiles_some as [t Ht]%bool_decide_eq_true.
  rewrite Ht. reflexivity.
Qed.
Lemma level2_session :
  find_session token level2 = Some (sid0, session_of level2)
  ∧ game_sessions (registry level2) !! sid0 = Some (session_of level2).
Proof. apply session_of_found. vm_compute. reflexivity. Qed.

(** The session shuffled under the 2 x 2 configuration is cut for 2. *)
Lemma shuffled_cut_for_2 : cut_for 2 (session_of shuffled).
Proof.
  apply (session_ok_cut _ [1; 2; 3; 0] 2).
  - exact (reachable_ok _ reachable_shuffled sid0 _ (proj2 shuffled_session)).
  - exact shuffled_order.
  - reflexivity.
  - lia.
Qed.

Lemma shuffled_grid : config.get_grid_size (config_file shuffled) = 2%Z.
Proof. vm_compute. reflexivity. Qed.

Lemma level2_level : current_level (session_of level2) = Some "level_2".
Proof. vm_compute. reflexivity. Qed.

End example_facts.

(* ===================================================================== *)
(** * The properties at the concrete server *)
(* ===================================================================== *)

(** C1 at the shuffled example: the order [1; 2; 3; 0] is judged. *)
Lemma validate_iff_identity_witness :
  ∃ b, validate_puzzle example.token example.shuffled
       = (validate_response b, example.shuffled)
     ∧ (b = true ↔ ∀ i, i < length [1; 2; 3; 0] → [1; 2; 3; 0] !! i = Some i)
     ∧ (b = false ↔ [1; 2; 3; 0] ≠ seq 0 (length [1; 2; 3; 0])).
Proof.
  exact (validate_iff_identity example.shuffled example.token example.sid0
           (example.session_of example.shuffled) [1; 2; 3; 0]
           reachable_shuffled (proj1 shuffled_session) shuffled_order).
Defined.

(** C2 at the shuffled example. *)
Lemma arrangement_is_permutation_witness :
  ∃ (n : nat) (tiles : list image),
    patches (example.session_of example.shuffled) = Some tiles
    ∧ original_positions (example.session_of example.shuffled) = Some (seq 0 (n * n))
    ∧ length tiles = n * n
    ∧ length [1; 2; 3; 0] = length tiles
    ∧ [1; 2; 3; 0] ≡ₚ seq 0 (n * n)
    ∧ NoDup [1; 2; 3; 0]
    ∧ ∀ k, k ∈ [1; 2; 3; 0] ↔ k < n * n.
Proof.
  exact (arrangement_is_permutation example.shuffled example.sid0
           (example.session_of example.shuffled) [1; 2; 3; 0]
           reachable_shuffled (proj2 shuffled_session) shuffled_order).
Defined.

(** C3 at the shuffled example: slots 0 and 1 exchanged twice. *)
Lemma swap_twice_restores_witness :
  let w1 := (swap_patches example.env0 5 0 1 example.token example.shuffled).2 in
  let w2 := (swap_patches example.env0 6 0 1 example.token w1).2 in
  arrangement <$> game_sessions (registry w2) !! example.sid0
  = Some (arrangement (example.session_of example.shuffled))
  ∧ (config.get_grid_size (config_file example.shuffled) ≠ 0%Z →
     arrangement <$> game_sessions (registry w1) !! example.sid0
     = Some (original_positions (example.session_of example.shuffled),
             py.swap_items [1; 2; 3; 0] (Z.to_nat 0) (Z.to_nat 1),
             Some (default [] (patches (example.session_of example.shuffled))))).
Proof.
  apply (swap_twice_restores example.env0 5 6 0 1 example.token example.shuffled
           example.sid0 (example.session_of example.shuffled) [1; 2; 3; 0]
           (default [] (patches (example.session_of example.shuffled)))).
  - exact (proj1 shuffled_session).
  - exact shuffled_order.
  - exact shuffled_tiles.
  - simpl. lia.
  - simpl. lia.
Defined.

(** C8 at the shuffled example: slots 0 and 1 of the 2 x 2 arrangement are
    exchanged while the configuration still asks for a 2 x 2 grid. *)
Lemma swap_preconditions_witness :
  ∃ url cur2 s2,
    (swap_patches example.env0 5 0 1 example.token example.shuffled).1 = swap_response url
    ∧ status (swap_patches example.env0 5 0 1 example.token example.shuffled).1 = 200%Z
    ∧ py.swap_items [1; 2; 3; 0] (Z.to_nat 0) (Z.to_nat 1) = Some cur2
    ∧ game_sessions
        (registry (swap_patches example.env0 5 0 1 example.token example.shuffled).2)
        !! example.sid0 = Some s2
    ∧ arrangement s2
      = (original_positions (example.session_of example.shuffled), Some cur2,
         patches (example.session_of example.shuffled))
    ∧ ((0 = 1)%Z → arrangement s2 = arrangement (example.session_of example.shuffled)).
Proof.
  pose proof (proj2 (swap_preconditions example.env0 5 0 1 example.token
                       example.shuffled example.sid0
                       (example.session_of example.shuffled)
                       (proj1 shuffled_session)) [1; 2; 3; 0]) as H.
  rewrite shuffled_grid in H.
  apply (H shuffled_cut_for_2 shuffled_order).
  split; simpl; lia.
Defined.

(** C8, the claim as stated fails: after the administrator has changed the
    grid size from 2 to 3, a swap of two slots that are in range of the live
    2 x 2 arrangement is answered with the server error of the endpoint; the
    two slots have been exchanged all the same. *)
Lemma swap_fails_after_regrid :
  let w := example.regridded in
  let r := swap_patches example.env0 5 0 1 example.token w in
  reachable w
  ∧ shuffled_positions (example.session_of w) = Some [1; 2; 3; 0]
  ∧ bool_decide (is_Some (patches (example.session_of w))) = true
  ∧ (0 ≤ 0 < 4)%Z ∧ (0 ≤ 1 < 4)%Z
  ∧ r.1 = failure_response "Swap failed" py.ValueError
  ∧ status r.1 = 500%Z
  ∧ shuffled_positions (example.session_of r.2) = Some [2; 1; 3; 0].
Proof.
  split; [exact reachable_regridded|].
  vm_compute. repeat split; congruence.
Qed.

(** C5 at the example: the client is at "level_2", the last level. *)
Lemma next_level_at_last_level_witness :
  next_level example.env0 example.token example.level2
  = (level_response "You have completed all levels!" None, example.level2)
  ∧ current_level
      <$> game_sessions
            (registry (next_level example.env0 example.token example.level2).2)
            !! example.sid0
    = Some (Some "level_2").
Proof.
  apply (next_level_at_last_level example.env0 example.token example.level2
           example.sid0 (example.session_of example.level2) "level_2").
  - exact (proj1 level2_session).
  - exact level2_level.
  - reflexivity.
Defined.

(** C5, the claim as stated fails: on the last level of the catalog the
    request is answered with "completed" and a null level, but the level
    entry of the session is not null afterwards: it still names the last
    level. *)
Lemma last_level_stays_in_session :
  let w := example.level2 in
  let r := next_level example.env0 example.token w in
  reachable w
  ∧ (image_metadata example.env0).*1 = ["level_1"; "level_2"]
  ∧ current_level (example.session_of w) = Some "level_2"
  ∧ r.1 = level_response "You have completed all levels!" None
  ∧ current_level (example.session_of r.2) = Some "level_2"
  ∧ current_level (example.session_of r.2) ≠ None.
Proof.
  split; [exact reachable_level2|].
  vm_compute. repeat split; congruence.
Qed.

(** C6 at the example: the 4 x 4 picture and a 2 x 2 grid. *)
Lemma partition_round_trip_witness :
  let edge := (512 `div` 2)%Z in
  let img := resize_L (pil example.env0) example.picture (Z.to_nat (edge * 2)) in
  ∃ tiles,
    partition example.env0 2 "app/static/images/level_1/a.jpg"
    = py.Ok (Some (edge, img, tiles))
    ∧ rect (Z.to_nat (edge * 2)) (Z.to_nat (edge * 2)) img
    ∧ length tiles = Z.to_nat (2 * 2)
    ∧ Forall (rect (Z.to_nat edge) (Z.to_nat edge)) tiles
    ∧ np.place_tiles false (seq 0 (Z.to_nat (2 * 2))) tiles edge
        (edge * 2) (edge * 2)
        (np.zeros (Z.to_nat (edge * 2)) (Z.to_nat (edge * 2)))
      = py.Ok img.
Proof.
  apply (partition_round_trip example.env0 2 "app/static/images/level_1/a.jpg"
           example.picture).
  - lia.
  - reflexivity.
Defined.

(** C6, the claim as stated fails: the edge of a tile does not depend on the
    source. The picture on disk is 4 x 4; cut for a 2 x 2 grid its tiles are
    256 x 256, not 2 x 2. *)
Lemma tile_edge_ignores_source_size :
  ∃ img tiles,
    files (pil example.env0) "app/static/images/level_1/a.jpg" = Some example.picture
    ∧ np.shape example.picture = (4, 4)
    ∧ partition example.env0 2 "app/static/images/level_1/a.jpg"
      = py.Ok (Some (256%Z, img, tiles))
    ∧ length tiles = 4
    ∧ Forall (rect 256 256) tiles
    ∧ (Z.of_nat 4 `div` 2 = 2)%Z ∧ (256 ≠ 2)%Z.
Proof.
  destruct (partition_spec example.env0 2 "app/static/images/level_1/a.jpg"
              example.picture ltac:(lia) eq_refl)
    as (tiles & E & _ & _ & Hlen & Hall).
  eexists _, tiles. split_and!; [reflexivity|reflexivity|exact E|exact Hlen|exact Hall|reflexivity|lia].
Qed.

(** C7 at the example: a grid size of 11 is refused by the configuration
    endpoint, and accepted by the partitioner. *)
Lemma grid_size_checked_at_configuration_witness :
  (update_config example.env0 (Some 11%Z) None "secret" example.start0).2 = example.start0
  ∧ ("secret" = ADMIN_PASSWORD example.env0 →
     update_config example.env0 (Some 11%Z) None "secret" example.start0
     = (error_response 400 "Grid size must be between 2 and 10", example.start0))
  ∧ (files (pil example.env0) "app/static/images/level_1/a.jpg" = Some example.picture →
     (11%Z = 0%Z →
      partition example.env0 11 "app/static/images/level_1/a.jpg"
      = py.Raise py.ZeroDivisionError)
     ∧ ((11 < 0 ∨ 512 < 11)%Z →
        partition example.env0 11 "app/static/images/level_1/a.jpg"
        = py.Raise py.ValueError)
     ∧ ((1 ≤ 11 ≤ 512)%Z →
        ∃ img tiles,
          partition example.env0 11 "app/static/images/level_1/a.jpg"
          = py.Ok (Some ((512 `div` 11)%Z, img, tiles))
          ∧ length tiles = Z.to_nat 11 * Z.to_nat 11)).
Proof.
  apply (grid_size_checked_at_configuration example.env0 11 None "secret"
           example.start0 "app/static/images/level_1/a.jpg" example.picture).
  right. lia.
Defined.

(** C7, the claim as stated fails: with a configuration file that asks for
    an 11 x 11 grid, outside [[2, 10]], the shuffle endpoint does not fail:
    it answers 200 and the session holds 121 tiles. *)
Lemma shuffle_accepts_grid_11 :
  let w := example.fetched11 in
  let r := shuffle_image example.env0 1000000 (λ i, i + 1) example.token w in
  reachable w
  ∧ (config.get_grid_size (config_file w),
     status r.1,
     r.1,
     length <$> patches (example.session_of r.2))
    = (11%Z, 200%Z,
       shuffle_response "/static/images/temp/shuffled_0f8fad5b_level_1_1000.jpg" 11,
       Some 121)
  ∧ ¬ (2 ≤ 11 ≤ 10)%Z.
Proof.
  split; [exact reachable_fetched11|]. split; [|lia].
  vm_compute. reflexivity.
Qed.

(** C10 at an example: a registered player answers one of the three
    questions of level 1; 10/3 is stored as 3. *)
Lemma saved_score_is_truncated_witness :
  let d := (database.register_player "p1" "alice"
              {| database.players := ∅; database.scores := [] |}).2 in
  let stored := ((1 * 10) `quot` 3)%Z in
  let r := save_score 7 (Some "p1") (Some "level_1") (Some 1%Z) d in
  stored_score 1 10 3 = py.Ok stored
  ∧ database.scores r.2
    = database.scores d
      ++ [ {| database.row_player_id := "p1"; database.row_level := "level_1";
              database.row_score := stored; database.row_timestamp := 7 |} ]
  ∧ (∀ name old, database.players d !! "p1" = Some (name, old) →
       r.1 = score_response (database.sum_scores "p1" (database.scores d) + stored)
       ∧ database.players r.2 !! "p1"
         = Some (name, (database.sum_scores "p1" (database.scores d) + stored)%Z))
  ∧ (database.players d !! "p1" = None →
       r.1 = score_response 0 ∧ database.players r.2 = database.players d).
Proof.
  apply (saved_score_is_truncated 7 "p1" "level_1" 1 10 3).
  - done.
  - reflexivity.
  - lia.
Defined.

(* ===================================================================== *)
(** * Further properties of the session registry *)
(* ===================================================================== *)

(** Every session has an expiry entry and every expiry entry a session. *)
Definition synced (r : sessions.registry) : Prop :=
  dom (game_sessions r) = dom (session_timeouts r).

Section registry_sync.

Lemma clear_session_synced sid r : synced r → synced (clear_session sid r).
Proof. unfold synced. simpl. intros H. by rewrite !dom_delete_L, H. Qed.

Lemma cleanup_synced now r : synced r → synced (cleanup_expired_sessions now r).
Proof.
  unfold cleanup_expired_sessions. generalize (expired now r). intros l. revert r.
  induction l as [|sid l IH]; intros r Hr; simpl; [done|].
  by apply IH, clear_session_synced.
Qed.

Lemma get_or_create_synced now uuid4 session_id r :
  synced r → synced (get_or_create_session now uuid4 session_id r).2.
Proof.
  unfold synced, get_or_create_session. intros Hr.
  destruct (known session_id r) as [sid|] eqn:Hk; simpl.
  - apply known_Some in Hk as (_ & _ & Hin).
    rewrite dom_insert_L. apply elem_of_dom in Hin. set_solver.
  - by rewrite !dom_insert_L, Hr.
Qed.

Lemma update_session_synced sid s s' w :
  game_sessions (registry w) !! sid = Some s →
  synced (registry w) → synced (registry (update_session sid s' w)).
Proof.
  unfold synced. simpl. intros Hs Hw. rewrite dom_insert_L, <- Hw.
  assert (sid ∈ dom (game_sessions (registry w))) by (apply elem_of_dom; eauto).
  set_solver.
Qed.

(** The endpoints write a session only under an identifier that is already
    registered, so the key set of [game_sessions] is kept by every request
    but image selection. *)
Lemma update_session_keys sid s s' w :
  game_sessions (registry w) !! sid = Some s →
  dom (game_sessions (registry (update_session sid s' w))) = dom (game_sessions (registry w)).
Proof.
  simpl. intros Hs. rewrite dom_insert_L.
  assert (sid ∈ dom (game_sessions (registry w))) by (apply elem_of_dom; eauto).
  set_solver.
Qed.

Lemma get_image_synced e now uuid4 draw session_id w :
  synced (registry w) → synced (registry (get_image e now uuid4 draw session_id w).2).
Proof.
  intros Hw. unfold get_image.
  set (w1 := cleanup_temp_images _ _ _).
  assert (synced (registry w1)) as Hw1 by (by apply cleanup_synced).
  pose proof (get_or_create_synced now uuid4 session_id (registry w1) Hw1) as Hr.
  destruct (get_or_create_session now uuid4 session_id (registry w1)) as [sid r] eqn:E.
  simpl in Hr.
  destruct (game_sessions r !! sid) as [s|] eqn:Hs; [|done].
  repeat case_match; simpl; try done.
  - unfold synced in *. simpl. rewrite !dom_insert_L, <- Hr.
    assert (sid ∈ dom (game_sessions r)) by (apply elem_of_dom; eauto). set_solver.
  - unfold synced in *. simpl. rewrite !dom_insert_L, <- Hr.
    assert (sid ∈ dom (game_sessions r)) by (apply elem_of_dom; eauto). set_solver.
Qed.

Lemma shuffle_image_synced e now rnd session_id w :
  synced (registry w) → synced (registry (shuffle_image e now rnd session_id w).2).
Proof.
  intros Hw. unfold shuffle_image.
  destruct (find_session session_id w) as [[sid s]|] eqn:Hf; [|done].
  apply find_session_Some in Hf as (_ & _ & Hs).
  assert (sid ∈ dom (game_sessions (registry w))) by (apply elem_of_dom; eauto).
  repeat case_match; simpl; try done.
  all: unfold synced in *; simpl; rewrite ?dom_insert_L, <- Hw; set_solver.
Qed.

Lemma swap_patches_synced e now a b session_id w :
  synced (registry w) → synced (registry (swap_patches e now a b session_id w).2).
Proof.
  intros Hw. unfold swap_patches.
  destruct (find_session session_id w) as [[sid s]|] eqn:Hf; [|done].
  apply find_session_Some in Hf as (_ & _ & Hs).
  assert (sid ∈ dom (game_sessions (registry w))) by (apply elem_of_dom; eauto).
  repeat case_match; simpl; try done.
  all: unfold synced in *; simpl; rewrite ?dom_insert_L, <- Hw; set_solver.
Qed.

Lemma next_level_synced e session_id w :
  synced (registry w) → synced (registry (next_level e session_id w).2).
Proof.
  intros Hw. unfold next_level.
  destruct (find_session session_id w) as [[sid s]|] eqn:Hf; [|done].
  apply find_session_Some in Hf as (_ & _ & Hs).
  assert (sid ∈ dom (game_sessions (registry w))) by (apply elem_of_dom; eauto).
  repeat case_match; simpl; try done.
  all: unfold synced in *; simpl; rewrite ?dom_insert_L, <- Hw; set_solver.
Qed.

Lemma handle_synced e i req w :
  synced (registry w) → synced (registry (handle e i req w).2).
Proof.
  intros Hw. destruct req; simpl.
  - by apply get_image_synced.
  - by apply shuffle_image_synced.
  - by apply swap_patches_synced.
  - unfold validate_puzzle. by repeat case_match.
  - by apply next_level_synced.
  - unfold update_config. by repeat case_match; simplify_eq/=.
Qed.

End registry_sync.

(** In every world the server can reach, the sessions and the expiry
    entries have the same identifiers: no session is without a deadline (so
    a sweep can reach each of them) and no deadline is left behind for a
    session that is gone. *)
Theorem sessions_and_timeouts_in_step (w : world) (sid : string) :
  reachable w →
  (is_Some (game_sessions (registry w) !! sid)
   ↔ is_Some (session_timeouts (registry w) !! sid)).
Proof.
  intros Hreach.
  assert (synced (registry w)) as Hsync.
  { induction Hreach as [cfg tmp|e i req w _ IH]; [done|]. by apply handle_synced. }
  unfold synced in Hsync. by rewrite <- !elem_of_dom, Hsync.
Qed.

(** The session a resolve returns survives every sweep made up to 60
    minutes later and is removed by any later sweep, whatever the token
    was. *)
Theorem resolved_session_expiry_window (now later : Z) (uuid4 : string)
    (session_id : option string) (r : sessions.registry) :
  let res := get_or_create_session now uuid4 session_id r in
  let swept := cleanup_expired_sessions later res.2 in
  is_Some (game_sessions res.2 !! res.1)
  ∧ session_timeouts res.2 !! res.1 = Some (now + 60 * 60 * 1000000)%Z
  ∧ ((later ≤ now + 60 * 60 * 1000000)%Z →
       game_sessions swept !! res.1 = game_sessions res.2 !! res.1)
  ∧ ((now + 60 * 60 * 1000000 < later)%Z →
       game_sessions swept !! res.1 = None ∧ session_timeouts swept !! res.1 = None).
Proof.
  intros res swept. subst swept.
  assert (session_timeouts res.2 !! res.1 = Some (now + 60 * 60 * 1000000)%Z) as Ht.
  { subst res. unfold get_or_create_session.
    destruct (known session_id r); simpl; by rewrite lookup_insert_eq. }
  split_and!; [|done|..].
  - subst res. unfold get_or_create_session.
    destruct (known session_id r) as [sid|] eqn:Hk; simpl.
    + by apply known_Some in Hk as (_ & _ & ?).
    + rewrite lookup_insert_eq. by eexists.
  - intros Hle. unfold cleanup_expired_sessions. rewrite clear_all_sessions.
    destruct (decide (res.1 ∈ expired later res.2)) as [Hin|]; [|done].
    apply elem_of_expired in Hin as (t & Ht' & Hlt). rewrite Ht in Ht'.
    injection Ht' as <-. lia.
  - intros Hlt. unfold cleanup_expired_sessions.
    rewrite clear_all_sessions, clear_all_timeouts.
    destruct (decide (res.1 ∈ expired later res.2)) as [|Hout]; [done|].
    exfalso. apply Hout, elem_of_expired. eauto.
Qed.

(** A session created for a client without a known token can be looked up
    under the returned identifier, [clear_session] removes it again, and no
    other session is touched on the way. *)
Theorem create_lookup_clear (now : Z) (uuid4 : string) (session_id : option string)
    (r : sessions.registry) :
  known session_id r = None →
  let res := get_or_create_session now uuid4 session_id r in
  get_session res.1 res.2 = Some new_session
  ∧ get_session res.1 (clear_session res.1 res.2) = None
  ∧ session_timeouts (clear_session res.1 res.2) !! res.1 = None
  ∧ ∀ other, other ≠ res.1 →
      get_session other (clear_session res.1 res.2) = get_session other r
      ∧ session_timeouts (clear_session res.1 res.2) !! other = session_timeouts r !! other.
Proof.
  intros Hk res. subst res. unfold get_or_create_session, get_session. rewrite Hk. simpl.
  rewrite lookup_insert_eq, !lookup_delete_eq. split_and!; try done.
  intros other Hne. by rewrite !lookup_delete_ne, !lookup_insert_ne.
Qed.

Section temp_image_facts.

Lemma cleanup_temp_images_lookup (now max_age_hours : Z) (w : world) (path : string) :
  temp_images (cleanup_temp_images now max_age_hours w) !! path
  = match temp_images w !! path with
    | Some (mtime, img) =>
        if bool_decide (now - mtime ≤ max_age_hours * 3600 * 1000000)%Z
        then Some (mtime, img) else None
    | None => None
    end.
Proof.
  unfold cleanup_temp_images, timedelta_hours. simpl.
  rewrite map_lookup_filter.
  destruct (temp_images w !! path) as [[mtime img]|]; simpl; [|done].
  case_bool_decide as Hage.
  - rewrite option_guard_True; [done|]. simpl. lia.
  - rewrite option_guard_False; [done|]. simpl. lia.
Qed.

Lemma get_image_temp_images e now uuid4 draw session_id w :
  temp_images (get_image e now uuid4 draw session_id w).2
  = temp_images
      (cleanup_temp_images now 24
         {| registry := cleanup_expired_sessions now (registry w);
            config_file := config_file w;
            temp_images := temp_images w |}).
Proof.
  unfold get_image.
  destruct (get_or_create_session _ _ _ _) as [sid r].
  by repeat case_match.
Qed.

End temp_image_facts.

(** Every request for an image, whatever its outcome, removes the
    temporary images that are more than 24 hours old and keeps the others
    with their content: an image written by a shuffle or a swap is gone after
    the first [GET /image] that comes more than a day later, whoever sends
    it. [cleanup_temp_images] itself changes neither the sessions nor the
    configuration. *)
Theorem get_image_sweeps_temp_images (e : env) (now : Z) (uuid4 : string) (draw : nat)
    (session_id : option string) (w : world) (path : string) :
  temp_images (get_image e now uuid4 draw session_id w).2 !! path
  = match temp_images w !! path with
    | Some (mtime, img) =>
        if bool_decide (now - mtime ≤ 24 * 3600 * 1000000)%Z
        then Some (mtime, img) else None
    | None => None
    end
  ∧ ∀ max_age_hours,
      registry (cleanup_temp_images now max_age_hours w) = registry w
      ∧ config_file (cleanup_temp_images now max_age_hours w) = config_file w.
Proof.
  split; [|done].
  rewrite get_image_temp_images.
  by rewrite cleanup_temp_images_lookup.
Qed.

(* ===================================================================== *)
(** * Configuration *)
(* ===================================================================== *)

Section config_facts.

Lemma get_set_grid_size size file :
  config.get_grid_size (config.set_grid_size size file) = size.
Proof. done. Qed.

Lemma get_grid_size_set_countdown seconds file :
  config.get_grid_size (config.set_countdown_time seconds file) = config.get_grid_size file.
Proof. done. Qed.

(** The requests other than the configuration update do not write the
    configuration file. *)
Lemma get_image_config e now uuid4 draw session_id w :
  config_file (get_image e now uuid4 draw session_id w).2 = config_file w.
Proof.
  unfold get_image.
  destruct (get_or_create_session _ _ _ _) as [sid r].
  by repeat case_match.
Qed.

Lemma shuffle_image_config e now rnd session_id w :
  config_file (shuffle_image e now rnd session_id w).2 = config_file w.
Proof. unfold shuffle_image. by repeat case_match. Qed.

Lemma swap_patches_config e now a b session_id w :
  config_file (swap_patches e now a b session_id w).2 = config_file w.
Proof. unfold swap_patches. by repeat case_match. Qed.

Lemma next_level_config e session_id w :
  config_file (next_level e session_id w).2 = config_file w.
Proof. unfold next_level. by repeat case_match. Qed.

Lemma validate_puzzle_config session_id w :
  config_file (validate_puzzle session_id w).2 = config_file w.
Proof. unfold validate_puzzle. by repeat case_match. Qed.

End config_facts.

(** The configuration file changes only through a configuration update
    that carries the administrator's password: every other request, and an
    update with another password (answered 401), leaves it as it is. *)
Theorem config_changes_need_password (e : env) (i : inputs) (req : request) (w : world) :
  config_file (handle e i req w).2 ≠ config_file w →
  ∃ g c, req = POST_admin_config g c (ADMIN_PASSWORD e).
Proof.
  intros Hchange. destruct req as [sid|sid|a b sid|sid|sid|g c pw]; simpl in Hchange.
  - by rewrite get_image_config in Hchange.
  - by rewrite shuffle_image_config in Hchange.
  - by rewrite swap_patches_config in Hchange.
  - by rewrite validate_puzzle_config in Hchange.
  - by rewrite next_level_config in Hchange.
  - exists g, c. f_equal. unfold update_config in Hchange.
    destruct (decide (pw = ADMIN_PASSWORD e)) as [|Hne]; [done|].
    by rewrite bool_decide_eq_true_2 in Hchange.
Qed.

(** Once the configured grid size is within [[2, 10]] it stays there,
    whatever requests are served: the update endpoint refuses every other
    value and no other endpoint writes the setting. A missing configuration
    file counts as size 4. *)
Theorem grid_size_stays_in_range (e : env) (i : inputs) (req : request) (w : world) :
  (2 ≤ config.get_grid_size (config_file w) ≤ 10)%Z →
  (2 ≤ config.get_grid_size (config_file (handle e i req w).2) ≤ 10)%Z.
Proof.
  intros Hw. destruct req as [sid|sid|a b sid|sid|sid|g c pw]; simpl.
  - by rewrite get_image_config.
  - by rewrite shuffle_image_config.
  - by rewrite swap_patches_config.
  - by rewrite validate_puzzle_config.
  - by rewrite next_level_config.
  - unfold update_config.
    destruct (bool_decide (pw ≠ ADMIN_PASSWORD e)); [done|].
    destruct g as [g|]; simpl.
    + destruct (bool_decide (g < 2)%Z) eqn:E1; [done|].
      destruct (bool_decide (g > 10)%Z) eqn:E2; [done|].
      apply bool_decide_eq_false in E1, E2. cbn [orb].
      destruct c as [c|].
      * destruct (bool_decide (c < 0)%Z || bool_decide (c > 60)%Z); cbn [snd config_file];
          rewrite ?get_grid_size_set_countdown, get_set_grid_size; lia.
      * cbn [snd config_file]. rewrite get_set_grid_size. lia.
    + cbn [orb]. destruct c as [c|]; [|done].
      destruct (bool_decide (c < 0)%Z || bool_decide (c > 60)%Z); cbn [snd config_file];
        [done|]. by rewrite get_grid_size_set_countdown.
Qed.

(** An update that carries a valid grid size and an invalid countdown time
    is answered 400, and yet the grid size has been written: the two
    settings are checked and stored one after the other. *)
Theorem config_update_is_not_atomic (e : env) (g c : Z) (w : world) :
  (2 ≤ g ≤ 10)%Z → (c < 0 ∨ 60 < c)%Z →
  let r := update_config e (Some g) (Some c) (ADMIN_PASSWORD e) w in
  r.1 = error_response 400 "Countdown time must be between 0 and 60 seconds"
  ∧ config.get_grid_size (config_file r.2) = g
  ∧ config.get_countdown_time (config_file r.2) = config.get_countdown_time (config_file w)
  ∧ registry r.2 = registry w.
Proof.
  intros Hg Hc r. subst r. unfold update_config.
  rewrite bool_decide_eq_false_2 by (by intros []).
  rewrite (bool_decide_eq_false_2 (g < 2)%Z), (bool_decide_eq_false_2 (g > 10)%Z) by lia.
  simpl.
  assert (bool_decide (c < 0)%Z || bool_decide (c > 60)%Z = true) as ->.
  { apply orb_true_iff. rewrite !bool_decide_eq_true. lia. }
  simpl. by split_and!.
Qed.

(* ===================================================================== *)
(** * What the shuffle and swap endpoints render and store *)
(* ===================================================================== *)

(** [shows g p cur img R]: [R] is a [g*p x g*p] image whose slot
    [(r / p, c / p)] shows the block of [img] that is tile number
    [cur[slot]] in row-major order. *)
Definition shows (g p : nat) (cur : list nat) (img R : image) : Prop :=
  rect (g * p) (g * p) R
  ∧ ∀ r c, r < g * p → c < g * p →
      ∃ k, cur !! (r / p * g + c / p) = Some k
         ∧ k < g * g
         ∧ px R r c = px img (k / g * p + r mod p) (k mod g * p + c mod p).

Section rendering.

(** Composing the tiles of an image in the order [cur]. *)
Lemma place_tiles_shows check g p (img : image) tiles cur :
  0 < g → 0 < p → rect (g * p) (g * p) img →
  np.to_patches img p = py.Ok tiles →
  cur ≡ₚ seq 0 (g * g) →
  ∃ R, np.place_tiles check cur tiles (Z.of_nat p)
         (Z.of_nat (g * p)) (Z.of_nat (g * p)) (np.zeros (g * p) (g * p)) = py.Ok R
     ∧ shows g p cur img R.
Proof.
  intros Hg Hp Himg Htiles Hperm.
  destruct (to_patches_spec g p img Hg Hp Himg) as (tiles' & E & Hlen & Hrect & Hpx).
  rewrite Htiles in E. injection E as <-.
  destruct (perm_seq_bounds _ _ Hperm) as [Hcur Hbound].
  destruct (place_tiles_spec check cur tiles p g (np.zeros (g * p) (g * p)))
    as (R & HR & HRrect & HRpx); try done.
  - lia.
  - intros n k _ Hk. rewrite Hlen. by eapply Hbound.
  - apply rect_zeros.
  - exists R. split; [done|]. split; [done|].
    intros r c Hr Hc.
    assert (r / p < g) by (apply Nat.Div0.div_lt_upper_bound; lia).
    assert (c / p < g) by (apply Nat.Div0.div_lt_upper_bound; lia).
    pose proof (flat_index_lt (r / p) (c / p) g g ltac:(done) ltac:(done)) as Hslot.
    destruct (lookup_lt_is_Some_2 cur (r / p * g + c / p)) as [k Hk]; [lia|].
    pose proof (Hbound _ _ Hk) as Hkb.
    exists k. split; [done|]. split; [done|].
    rewrite HRpx by done. unfold slot_px. rewrite Hk. simpl.
    apply Hpx; [done|by apply Nat.mod_upper_bound; lia..].
Qed.

End rendering.


(** A shuffle of a session whose selected image exists, with a configured
    grid size [g] between 1 and 512, answers 200 with the grid size; the
    session then holds the tiles of the resized source, the identity as
    original order and the outcome of [random.shuffle] as current order; the
    image written for the client shows in every slot the tile the current
    order names; level, image name and start time are kept. *)
Theorem shuffle_image_result (e : env) (now : Z) (rnd : nat → nat)
    (session_id : option string) (w : world) (sid : string) (s : session)
    (name level : string) (images : list string) (src : image) :
  find_session session_id w = Some (sid, s) →
  current_image_name s = Some name →
  current_level s = Some level →
  level_data (image_metadata e) level = Some images →
  name ∈ images →
  files (pil e) ("app/static/images/" +:+ level +:+ "/" +:+ name) = Some src →
  (1 ≤ config.get_grid_size (config_file w) ≤ 512)%Z →
  let g := config.get_grid_size (config_file w) in
  let n := Z.to_nat g in
  let p := Z.to_nat (512 `div` g) in
  let img := resize_L (pil e) src (Z.to_nat (512 `div` g * g)) in
  let path := temp_name "app/static/images/temp/" "shuffled" sid (Some level) now in
  let r := shuffle_image e now rnd session_id w in
  ∃ tiles R s',
    r.1 = shuffle_response
            (temp_name "/static/images/temp/" "shuffled" sid (Some level) now) g
    ∧ np.to_patches img p = py.Ok tiles
    ∧ game_sessions (registry r.2) !! sid = Some s'
    ∧ arrangement s'
      = (Some (seq 0 (n * n)), Some (py.random_shuffle rnd (seq 0 (n * n))), Some tiles)
    ∧ current_level s' = Some level
    ∧ current_image_name s' = Some name
    ∧ start_time s' = start_time s
    ∧ current_shuffled_image_path s' = Some path
    ∧ temp_images r.2 !! path = Some (now, R)
    ∧ shows n p (py.random_shuffle rnd (seq 0 (n * n))) img R.
Proof.
  intros Hf Hname Hlevel Hdata Hin Hsrc Hg g n p img path r.
  destruct (partition_spec e g _ src Hg Hsrc) as (tiles & Hpart & Hrect & Hcut & Hlen & _).
  fold img in Hpart, Hrect, Hcut. fold n in Hrect, Hlen. fold p in Hrect, Hcut.
  pose proof (tile_edge_pos _ Hg) as Hedge. fold g in Hedge.
  assert (0 < n) as Hn by (unfold n; lia).
  assert (0 < p) as Hpp by (unfold p; lia).
  assert (Z.of_nat p = 512 `div` g)%Z as Hpz by (unfold p; lia).
  assert (Z.of_nat (n * p) = 512 `div` g * g)%Z as Hnp by (unfold n, p; lia).
  destruct (place_tiles_shows false n p img tiles
              (py.random_shuffle rnd (seq 0 (n * n)))
              Hn Hpp Hrect Hcut (random_shuffle_perm _ _))
    as (R & HR & Hshows).
  exists tiles, R.
  subst r. unfold shuffle_image.
  rewrite Hf, Hname, Hlevel. simpl. rewrite Hdata. simpl.
  rewrite bool_decide_eq_true_2 by done. simpl.
  fold g. rewrite Hpart, Hlen.
  pose proof (shape_rect _ _ _ Hrect ltac:(lia)) as Hshape.
  unfold np.shape in Hshape. injection Hshape as Hh Hwd.
  rewrite Hh, Hwd, <- Hpz, HR. simpl.
  exists {| original_positions := Some (seq 0 (n * n));
            shuffled_positions := Some (py.random_shuffle rnd (seq 0 (n * n)));
            patches := Some tiles;
            current_level := Some level;
            current_image_name := Some name;
            start_time := start_time s;
            current_shuffled_image_path := Some path |}.
  cbn [fst snd registry game_sessions update_session temp_images save_image].
  rewrite !lookup_insert_eq.
  by split_and!.
Qed.


(* ===================================================================== *)
(** * Image selection and level progression *)
(* ===================================================================== *)

Section selection.

Lemma random_choice_elem {A} (draw : nat) (l : list A) x :
  py.random_choice draw l = py.Ok x → x ∈ l.
Proof.
  unfold py.random_choice, py.getitem. destruct l as [|y l]; [done|].
  destruct ((y :: l) !! _) as [z|] eqn:E; intros; simplify_eq.
  by eapply list_elem_of_lookup_2.
Qed.

Lemma get_or_create_deadline now uuid4 session_id r :
  session_timeouts (get_or_create_session now uuid4 session_id r).2
    !! (get_or_create_session now uuid4 session_id r).1
  = Some (now + timedelta_minutes SESSION_TIMEOUT_MINUTES)%Z.
Proof.
  unfold get_or_create_session.
  destruct (known session_id r); simpl; by rewrite lookup_insert_eq.
Qed.

End selection.

(** When the image endpoint answers with an image, the session named in
    the answer exists, its expiry is 60 minutes after the request, and it
    records an image of the catalog of its level whose file exists, the one
    the URL of the answer points to; the start time of the answer is the one
    recorded in the session. *)
Theorem get_image_result (e : env) (now : Z) (uuid4 : string) (draw : nat)
    (session_id : option string) (w : world) (url : string) (st : Z) (sid : string) :
  (get_image e now uuid4 draw session_id w).1 = image_response url st sid →
  ∃ s level images name,
    game_sessions (registry (get_image e now uuid4 draw session_id w).2) !! sid = Some s
    ∧ session_timeouts (registry (get_image e now uuid4 draw session_id w).2) !! sid
      = Some (now + 60 * 60 * 1000000)%Z
    ∧ current_level s = Some level
    ∧ level_data (image_metadata e) level = Some images
    ∧ name ∈ images
    ∧ current_image_name s = Some name
    ∧ url = "/static/images/" +:+ level +:+ "/" +:+ name
    ∧ is_Some (files (pil e) ("app/static/images/" +:+ level +:+ "/" +:+ name))
    ∧ start_time s = Some st
    ∧ (sid = uuid4 ∨ session_id = Some sid).
Proof.
  unfold get_image.
  set (w1 := cleanup_temp_images _ _ _).
  pose proof (get_or_create_deadline now uuid4 session_id (registry w1)) as Hdead.
  assert ((get_or_create_session now uuid4 session_id (registry w1)).1 = uuid4
          ∨ session_id = Some (get_or_create_session now uuid4 session_id (registry w1)).1)
    as Hwho.
  { unfold get_or_create_session.
    destruct (known session_id (registry w1)) as [k|] eqn:Hk; simpl; [right|by left].
    by apply known_Some in Hk as (-> & _). }
  destruct (get_or_create_session now uuid4 session_id (registry w1)) as [sid' r] eqn:E.
  simpl in Hdead, Hwho.
  destruct (game_sessions r !! sid') as [s0|] eqn:Hs; [|done].
  destruct (current_level s0) as [level|] eqn:Hlevel; [|done]. simpl.
  destruct (level_data (image_metadata e) level) as [images|] eqn:Hdata; [|done]. simpl.
  case_bool_decide as Hempty; [done|].
  destruct (py.random_choice draw images) as [name|ex] eqn:Hchoice; [|done].
  destruct (files (pil e) _) as [file|] eqn:Hfile; [|done].
  simpl. intros [= <- <- <-].
  eexists _, level, images, name. rewrite lookup_insert_eq.
  split_and!; try done.
  by eapply random_choice_elem.
Qed.

(** When the catalog has a level after the session's level, [next_level]
    moves the session to it and clears image, start time and arrangement;
    right after that the validator and the swap engine answer that there is
    no puzzle, and a shuffle that no image is selected. *)
Theorem next_level_advances (e : env) (now : Z) (rnd : nat → nat) (a b : Z)
    (session_id : option string) (w : world) (sid : string) (s : session)
    (l next : string) (i : nat) :
  find_session session_id w = Some (sid, s) →
  current_level s = Some l →
  index_of l (image_metadata e).*1 = Some i →
  (image_metadata e).*1 !! S i = Some next →
  let r := next_level e session_id w in
  r.1 = level_response "Progressed to the next level" (Some next)
  ∧ game_sessions (registry r.2) !! sid
    = Some {| original_positions := None; shuffled_positions := None; patches := None;
              current_level := Some next; current_image_name := None;
              start_time := None; current_shuffled_image_path := None |}
  ∧ (validate_puzzle session_id r.2).1 = error_response 400 "No puzzle to validate"
  ∧ (swap_patches e now a b session_id r.2).1 = error_response 400 "No puzzle to swap"
  ∧ (shuffle_image e now rnd session_id r.2).1
    = error_response 400 "No image selected. Please load an image first.".
Proof.
  intros Hf Hl Hi Hnext r.
  pose proof (lookup_lt_Some _ _ _ Hnext) as Hlen.
  assert (r = (level_response "Progressed to the next level" (Some next),
               update_session sid
                 {| original_positions := None; shuffled_positions := None;
                    patches := None; current_level := Some next;
                    current_image_name := None; start_time := None;
                    current_shuffled_image_path := None |} w)) as ->.
  { subst r. unfold next_level. rewrite Hf, Hl. simpl. rewrite Hi.
    rewrite bool_decide_eq_true_2 by lia.
    replace (Z.to_nat (Z.of_nat i + 1)) with (S i) by lia.
    by rewrite Hnext. }
  pose proof Hf as (-> & Hne & Hs)%find_session_Some.
  cbn [fst snd].
  assert (find_session (Some sid)
            (update_session sid
               {| original_positions := None; shuffled_positions := None;
                  patches := None; current_level := Some next;
                  current_image_name := None; start_time := None;
                  current_shuffled_image_path := None |} w)
          = Some (sid, {| original_positions := None; shuffled_positions := None;
                          patches := None; current_level := Some next;
                          current_image_name := None; start_time := None;
                          current_shuffled_image_path := None |})) as Hf'.
  { apply find_session_Some. split_and!; try done. simpl. by rewrite lookup_insert_eq. }
  split_and!; try done.
  - simpl. by rewrite lookup_insert_eq.
  - unfold validate_puzzle. by rewrite Hf'.
  - unfold swap_patches. by rewrite Hf'.
  - unfold shuffle_image. by rewrite Hf'.
Qed.

(** A session whose level is not a level of the catalog is sent to the
    first level of the catalog by [next_level]; with an empty catalog the
    answer is "completed" and nothing changes. *)
Theorem next_level_from_unknown_level (e : env) (session_id : option string)
    (w : world) (sid : string) (s : session) :
  find_session session_id w = Some (sid, s) →
  current_level s ≫= (λ l, index_of l (image_metadata e).*1) = None →
  match (image_metadata e).*1 with
  | first :: _ =>
      (next_level e session_id w).1
      = level_response "Progressed to the next level" (Some first)
      ∧ current_level <$> game_sessions (registry (next_level e session_id w).2) !! sid
        = Some (Some first)
  | [] =>
      next_level e session_id w
      = (level_response "You have completed all levels!" None, w)
  end.
Proof.
  intros Hf Hidx. unfold next_level. rewrite Hf, Hidx.
  destruct ((image_metadata e).*1) as [|first rest]; simpl; [done|].
  rewrite bool_decide_eq_true_2 by lia. simpl. by rewrite lookup_insert_eq.
Qed.

Section shuffle_reach.
Context {A : Type}.
Implicit Types x y : list A.

Lemma swap_items_app x y i j :
  i < length x → j < length x →
  py.swap_items (x ++ y) i j = (λ z, z ++ y) <$> py.swap_items x i j.
Proof.
  intros Hi Hj. unfold py.swap_items.
  rewrite !lookup_app_l by done.
  destruct (x !! i) as [xi|] eqn:Ei; [|done].
  destruct (x !! j) as [xj|] eqn:Ej; [|done].
  simpl. f_equal.
  rewrite insert_app_l by done.
  rewrite insert_app_l by (by rewrite length_insert).
  done.
Qed.

Lemma shuffle_down_length rnd i x :
  length (py.shuffle_down rnd i x) = length x.
Proof.
  revert x. induction i as [|i IH]; intros x; [done|].
  cbn [py.shuffle_down]. rewrite IH.
  destruct (py.swap_items x (S i) _) as [z|] eqn:E; [|done].
  simpl. by eapply swap_items_length.
Qed.

Lemma shuffle_down_app rnd i x y :
  i < length x →
  py.shuffle_down rnd i (x ++ y) = py.shuffle_down rnd i x ++ y.
Proof.
  revert x. induction i as [|i IH]; intros x Hi; [done|].
  cbn [py.shuffle_down].
  assert (rnd (S i) mod (S i + 1) < S i + 1) as Hj
    by (apply Nat.mod_upper_bound; lia).
  rewrite swap_items_app by lia.
  destruct (py.swap_items x (S i) _) as [z|] eqn:E.
  - simpl. apply IH. apply swap_items_length in E. lia.
  - simpl. apply IH. lia.
Qed.

Lemma shuffle_down_ext rnd rnd' i x :
  (∀ k, k ≤ i → rnd k = rnd' k) →
  py.shuffle_down rnd i x = py.shuffle_down rnd' i x.
Proof.
  revert x. induction i as [|i IH]; intros x H; [done|].
  cbn [py.shuffle_down]. rewrite (H (S i)) by lia.
  apply IH. intros k Hk. apply H. lia.
Qed.

Lemma random_shuffle_reaches_snoc (n : nat) :
  ∀ x x', length x = n → x' ≡ₚ x → ∃ rnd, py.random_shuffle rnd x = x'.
Proof.
  induction n as [|n IH]; intros x x' Hlen Hperm.
  { apply nil_length_inv in Hlen as ->. apply Permutation_nil_r in Hperm as ->.
    by exists (λ _, 0). }
  destruct (decide (n = 0)) as [->|Hn].
  { destruct x as [|a [|? ?]]; simplify_eq/=.
    apply Permutation_singleton_r in Hperm as ->. by exists (λ _, 0). }
  (* the last item of the target, and where it is in the source *)
  assert (length x' = S n) as Hlen' by by rewrite Hperm.
  destruct (lookup_lt_is_Some_2 x' n) as [z Hz]; [lia|].
  assert (x' = take n x' ++ [z]) as Hx'.
  { rewrite <-(take_drop n x') at 1. f_equal.
    rewrite (drop_S _ _ _ Hz). rewrite drop_ge by lia. done. }
  assert (z ∈ x) as Hzx.
  { rewrite <-Hperm. by eapply list_elem_of_lookup_2. }
  apply list_elem_of_lookup_1 in Hzx as [j Hj].
  pose proof (lookup_lt_Some _ _ _ Hj) as Hjn.
  destruct (lookup_lt_is_Some_2 x n) as [xn Hxn]; [lia|].
  (* the first step of the loop brings it to the end *)
  set (x1 := <[j := xn]> (<[n := z]> x)).
  assert (py.swap_items x n j = Some x1) as Hswap.
  { unfold py.swap_items. by rewrite Hxn, Hj. }
  assert (length x1 = S n) as Hlen1.
  { apply swap_items_length in Hswap. lia. }
  assert (x1 !! n = Some z) as Hx1n.
  { pose proof (swap_items_lookup _ _ _ _ n Hswap) as H.
    rewrite H. case_decide as Hnj; [by rewrite <-Hnj in Hj|].
    by rewrite decide_True. }
  assert (x1 = take n x1 ++ [z]) as Hx1.
  { rewrite <-(take_drop n x1) at 1. f_equal.
    rewrite (drop_S _ _ _ Hx1n). rewrite drop_ge by lia. done. }
  assert (take n x' ≡ₚ take n x1) as Hperm'.
  { apply (Permutation_app_inv_r [z]). rewrite <-Hx', <-Hx1.
    rewrite Hperm. symmetry. by eapply swap_items_perm. }
  destruct (IH (take n x1) (take n x')) as [rnd Hrnd]; [|done|].
  { rewrite length_take. lia. }
  exists (λ k, if decide (k = n) then j else rnd k).
  unfold py.random_shuffle in *. rewrite Hlen.
  rewrite length_take, Hlen1 in Hrnd.
  replace (n `min` S n - 1) with (n - 1) in Hrnd by lia.
  replace (S n - 1) with n by lia.
  destruct n as [|m]; [done|].
  cbn [py.shuffle_down]. rewrite decide_True by done.
  rewrite Nat.mod_small by lia. rewrite Hswap. cbn [default].
  rewrite Hx1 at 1. unfold id. rewrite shuffle_down_app by (rewrite length_take; lia).
  rewrite Hx'. f_equal.
  rewrite <-Hrnd. replace (S m - 1) with m by lia.
  apply shuffle_down_ext. intros k Hk. rewrite decide_False by lia. done.
Qed.

Lemma shuffle_down_fixed i x :
  py.shuffle_down (λ k, k) i x = x.
Proof.
  revert x. induction i as [|i IH]; intros x; [done|].
  cbn [py.shuffle_down]. rewrite Nat.mod_small by lia.
  destruct (py.swap_items x (S i) (S i)) as [y|] eqn:E; simpl; [|apply IH].
  apply swap_items_same in E as ->. apply IH.
Qed.

End shuffle_reach.

(** The outcomes of [random.shuffle] are exactly the rearrangements of its
    argument: every outcome is one, and for each rearrangement there are
    draws that yield it. In particular the draws [i] at every step [i] return
    the list as it was, so a shuffled puzzle may come out already solved. *)
Theorem random_shuffle_reaches_every_arrangement {A : Type} (x x' : list A) :
  (x' ≡ₚ x ↔ ∃ rnd, py.random_shuffle rnd x = x')
  ∧ py.random_shuffle (λ i, i) x = x.
Proof.
  split.
  - split.
    + intros H. by eapply random_shuffle_reaches_snoc.
    + intros [rnd <-]. apply random_shuffle_perm.
  - apply shuffle_down_fixed.
Qed.

(* ===================================================================== *)
(** * Players, scores and progress *)
(* ===================================================================== *)

Section player_facts.
Import database.

(** The [UNIQUE] constraint on [players.username]. *)
Definition unique_usernames (d : db) : Prop :=
  ∀ p1 p2 u t1 t2,
    players d !! p1 = Some (u, t1) → players d !! p2 = Some (u, t2) → p1 = p2.

Section database_facts.

Lemma username_taken name (d : db) :
  Exists (λ p : string * (string * Z), p.2.1 = name) (map_to_list (players d))
  ↔ ∃ pid t, players d !! pid = Some (name, t).
Proof.
  rewrite Exists_exists. split.
  - intros ([pid [u t]] & Hin & Hu). simpl in Hu. subst u.
    apply elem_of_map_to_list in Hin. eauto.
  - intros (pid & t & H). exists (pid, (name, t)). split; [|done].
    by apply elem_of_map_to_list.
Qed.

Lemma get_player_by_username_Some name (d : db) pid u t :
  unique_usernames d →
  get_player_by_username name d
  = Some {| player_id := pid; username := u; total_score := t |}
  ↔ u = name ∧ players d !! pid = Some (name, t).
Proof.
  intros Hu. unfold get_player_by_username. split.
  - destruct (list_find _ _) as [[i [pid' [u' t']]]|] eqn:E; [|done].
    simpl. intros [= -> -> ->].
    apply list_find_Some in E as (Hin%list_elem_of_lookup_2 & Hp & _).
    simpl in Hp. subst u. apply elem_of_map_to_list in Hin. done.
  - intros (-> & Hp).
    assert ((pid, (name, t)) ∈ map_to_list (players d)) as Hin
      by by apply elem_of_map_to_list.
    destruct (list_find_elem_of (λ p : string * (string * Z), p.2.1 = name)
                _ _ Hin eq_refl) as [[i [pid' [u' t']]] E].
    rewrite E. simpl.
    apply list_find_Some in E as (Hin'%list_elem_of_lookup_2 & Hp' & _).
    simpl in Hp'. subst u'. apply elem_of_map_to_list in Hin'.
    assert (pid' = pid) as -> by eauto.
    rewrite Hp in Hin'. by simplify_eq.
Qed.

Lemma get_player_by_username_None name (d : db) :
  get_player_by_username name d = None ↔ ∀ pid t, players d !! pid ≠ Some (name, t).
Proof.
  unfold get_player_by_username. rewrite fmap_None, list_find_None, Forall_forall.
  split.
  - intros H pid t Hp. apply (H (pid, (name, t))); [|done].
    by apply elem_of_map_to_list.
  - intros H [pid [u t]] Hin%elem_of_map_to_list Hu. simpl in Hu. subst u.
    by eapply H.
Qed.

Lemma save_score_players now pid lvl ws (d : db) other :
  other ≠ pid →
  players (database.save_score now pid lvl ws d).2 !! other = players d !! other.
Proof.
  intros Hne. unfold database.save_score.
  destruct (py.int_of_float ws); simpl; [|done].
  destruct (players d !! pid) as [[u t]|]; [|done].
  by rewrite lookup_insert_ne.
Qed.

Lemma save_score_username now pid lvl ws (d : db) p :
  fst <$> players (database.save_score now pid lvl ws d).2 !! p = fst <$> players d !! p.
Proof.
  destruct (decide (p = pid)) as [->|Hne]; [|by rewrite save_score_players].
  unfold database.save_score.
  destruct (py.int_of_float ws); simpl; [|done].
  destruct (players d !! pid) as [[u t]|] eqn:E; [|by rewrite E].
  by rewrite lookup_insert_eq.
Qed.

Lemma register_player_unique pid name (d : db) :
  unique_usernames d → unique_usernames (register_player pid name d).2.
Proof.
  intros Hu. unfold register_player.
  case_bool_decide as Htaken; [done|].
  case_bool_decide as Hpid; [done|]. simpl.
  intros p1 p2 u t1 t2 H1 H2. simpl in H1, H2.
  destruct (decide (p1 = pid)) as [->|Hn1], (decide (p2 = pid)) as [->|Hn2];
    [done|..].
  - rewrite lookup_insert_eq in H1. rewrite lookup_insert_ne in H2 by done.
    simplify_eq. destruct Htaken. apply username_taken. eauto.
  - rewrite lookup_insert_eq in H2. rewrite lookup_insert_ne in H1 by done.
    simplify_eq. destruct Htaken. apply username_taken. eauto.
  - rewrite lookup_insert_ne in H1, H2 by done. eauto.
Qed.

End database_facts.


(** [register_player] either adds the player, with total 0 and no change to
    the scores, after which the name is found under the new identifier and
    was not found before; or it reports an error and leaves the database as
    it was. The error is "Username already exists" exactly when the name is
    found. *)
Theorem register_player_spec (pid name : string) (d : db) :
  unique_usernames d →
  let r := register_player pid name d in
  match r.1 with
  | None =>
      get_player_by_username name d = None
      ∧ players d !! pid = None
      ∧ get_player_by_username name r.2
        = Some {| player_id := pid; username := name; total_score := 0 |}
      ∧ scores r.2 = scores d
      ∧ (∀ other, other ≠ pid → players r.2 !! other = players d !! other)
  | Some err =>
      r.2 = d
      ∧ (err = "Username already exists" ↔ is_Some (get_player_by_username name d))
  end.
Proof.
  intros Hu r.
  pose proof (register_player_unique pid name d Hu) as Hu'. fold r in Hu'.
  revert Hu'. subst r. unfold register_player.
  case_bool_decide as Htaken; simpl.
  { intros _. split; [done|]. split; [intros _|done].
    apply username_taken in Htaken as (p & t & Hp).
    exists {| player_id := p; username := name; total_score := t |}.
    by apply get_player_by_username_Some. }
  assert (get_player_by_username name d = None) as Hnone.
  { apply get_player_by_username_None. intros p t Hp.
    apply Htaken, username_taken. eauto. }
  case_bool_decide as Hpid; simpl.
  { intros _. split; [done|]. rewrite Hnone. split; [done|]. by intros [? ?]. }
  intros Hu'. split_and!; try done.
  - by apply eq_None_not_Some.
  - apply get_player_by_username_Some; [done|].
    simpl. by rewrite lookup_insert_eq.
  - intros other Hne. by rewrite lookup_insert_ne.
Qed.

(** Saving a score never changes another player's row, never adds or
    removes a player, never changes a user name, and keeps the rows already
    stored, in order, in front of the new one. *)
Theorem save_score_touches_one_player (now : Z) (pid lvl : string) (ws : float)
    (d : db) :
  let d' := (database.save_score now pid lvl ws d).2 in
  (∀ other, other ≠ pid → players d' !! other = players d !! other)
  ∧ (∀ p, fst <$> players d' !! p = fst <$> players d !! p)
  ∧ scores d `prefix_of` scores d'
  ∧ length (scores d') ≤ S (length (scores d)).
Proof.
  intros d'. split_and!.
  - intros. by apply save_score_players.
  - intros. by apply save_score_username.
  - subst d'. unfold database.save_score.
    destruct (py.int_of_float ws); simpl; [|done]. by apply prefix_app_r.
  - subst d'. unfold database.save_score.
    destruct (py.int_of_float ws); simpl; [|lia]. rewrite length_app. simpl. lia.
Qed.


Section progress_facts.

Lemma elem_of_completed pid (d : db) l :
  l ∈ (get_player_progress pid d).1
  ↔ ∃ row, row ∈ scores d ∧ row_player_id row = pid ∧ row_level row = l.
Proof.
  unfold get_player_progress. cbn [fst].
  rewrite merge_sort_Permutation, elem_of_remove_dups, list_elem_of_fmap.
  split.
  - intros (row & -> & [? ?]%list_elem_of_filter). eauto.
  - intros (row & ? & ? & <-). exists row. split; [done|].
    by apply list_elem_of_filter.
Qed.

Lemma next_level_spec pid (d : db) :
  let completed := (get_player_progress pid d).1 in
  let next := (get_player_progress pid d).2 in
  (∃ i, all_levels !! i = Some next ∧ (next ∉ completed)
        ∧ ∀ j l, j < i → all_levels !! j = Some l → l ∈ completed)
  ∨ (next = "level_1" ∧ ∀ l, l ∈ all_levels → l ∈ completed).
Proof.
  intros completed next.
  subst next completed. unfold get_player_progress. cbn [fst snd].
  set (completed := merge_sort _ _).
  destruct (list_find (λ level, level ∉ completed) all_levels) as [[i l]|] eqn:E.
  - left. apply list_find_Some in E as (Hi & Hl & Hbefore).
    exists i. change (default "level_1" (snd <$> Some (i, l))) with l.
    split; [done|]. split; [done|].
    intros j l' Hj Hl'. destruct (decide (l' ∈ completed)) as [|Hn]; [done|].
    by destruct (Hbefore j l' Hl' Hj).
  - right. split; [done|]. apply list_find_None in E.
    rewrite Forall_forall in E. intros l Hl.
    destruct (decide (l ∈ completed)) as [|Hn]; [done|]. by destruct (E l Hl).
Qed.

End progress_facts.

(** The progress of a player: the completed levels are exactly the levels
    of the player's score rows, each once, in ascending order; the next
    level is the first of level_1 .. level_4 that is not completed, and
    level_1 again when all four are. *)
Theorem player_progress_spec (pid : string) (d : db) :
  let completed := (get_player_progress pid d).1 in
  let next := (get_player_progress pid d).2 in
  (∀ l, l ∈ completed
        ↔ ∃ row, row ∈ scores d ∧ row_player_id row = pid ∧ row_level row = l)
  ∧ NoDup completed
  ∧ Sorted level_le completed
  ∧ ((∃ i, all_levels !! i = Some next ∧ (next ∉ completed)
           ∧ ∀ j l, j < i → all_levels !! j = Some l → l ∈ completed)
     ∨ (next = "level_1" ∧ ∀ l, l ∈ all_levels → l ∈ completed)).
Proof.
  intros completed next. split_and!.
  - intros l. apply elem_of_completed.
  - subst completed. unfold get_player_progress. cbn [fst].
    rewrite merge_sort_Permutation. apply NoDup_remove_dups.
  - subst completed. unfold get_player_progress. cbn [fst].
    apply (Sorted_merge_sort level_le).
  - apply next_level_spec.
Qed.

(** A level whose score the score endpoint has saved is a completed level
    of that player afterwards, and is not proposed as the next level unless
    all four levels are completed. *)
Theorem saved_level_is_completed (now : Z) (pid lvl : option string) (score : option Z)
    (d : db) (total : Z) :
  (main.save_score now pid lvl score d).1 = score_response total →
  ∃ p l,
    pid = Some p ∧ lvl = Some l ∧ l ∈ all_levels
    ∧ let progress := get_player_progress p (main.save_score now pid lvl score d).2 in
      l ∈ progress.1
      ∧ (progress.2 = l → ∀ l', l' ∈ all_levels → l' ∈ progress.1).
Proof.
  unfold main.save_score.
  destruct pid as [p|], lvl as [l|], score as [sc|]; try done.
  destruct (negb (py.truthy (Some p)) || negb (py.truthy (Some l))); [done|].
  destruct (weights_of l label_weights) as [[weight nq]|] eqn:Hw; [|done].
  destruct (weighted_score sc weight nq) as [ws|ex]; [|done].
  unfold database.save_score.
  destruct (py.int_of_float ws) as [z|ex]; [|done].
  cbn [fst snd]. intros _. exists p, l.
  assert (l ∈ all_levels) as Hl.
  { apply weights_of_In in Hw. unfold label_weights in Hw.
    unfold all_levels. set_solver. }
  split; [done|]. split; [done|]. split; [done|]. cbv zeta.
  set (d' := {| players := _; scores := _ |}).
  assert (l ∈ (get_player_progress p d').1) as Hdone.
  { apply elem_of_completed.
    exists {| row_player_id := p; row_level := l; row_score := z; row_timestamp := now |}.
    split; [|done]. subst d'. cbn [scores]. set_solver. }
  split; [done|].
  intros Hnext l' Hl'.
  destruct (next_level_spec p d') as [(i & _ & Hn & _)|[_ Hall]].
  - rewrite Hnext in Hn. done.
  - by apply Hall.
Qed.

(** The score endpoint either answers with a total and has appended exactly
    one row, for the player and level of the request, or answers with an
    error and has left the database as it was. *)
Theorem save_score_all_or_nothing (now : Z) (pid lvl : option string) (score : option Z)
    (d : db) :
  let r := main.save_score now pid lvl score d in
  (∃ total p l z,
     r.1 = score_response total ∧ pid = Some p ∧ lvl = Some l
     ∧ scores r.2
       = scores d ++ [ {| row_player_id := p; row_level := l;
                          row_score := z; row_timestamp := now |} ])
  ∨ (status r.1 ≠ 200%Z ∧ r.2 = d).
Proof.
  intros r. subst r. unfold main.save_score.
  destruct pid as [p|], lvl as [l|], score as [sc|]; try (by right).
  destruct (negb (py.truthy (Some p)) || negb (py.truthy (Some l))); [by right|].
  destruct (weights_of l label_weights) as [[weight nq]|] eqn:Hw; [|by right].
  destruct (weighted_score sc weight nq) as [ws|ex]; [|by right].
  unfold database.save_score.
  destruct (py.int_of_float ws) as [z|ex]; [|by right].
  left. cbn [fst snd scores]. eauto 10.
Qed.

End player_facts.

(* ===================================================================== *)
(** * The scoring of answers *)
(* ===================================================================== *)

Section quiz_facts.
Context {value : Type} (py_eq : value → value → bool).
Import quiz.

Definition correct_count (details : list (@detail value)) : Z :=
  Z.of_nat (length (filter (λ d, is_correct d = true) details)).

Lemma for_each_check_answer questions answers (st st' : Z * list detail) :
  py.for_each answers (check_answer py_eq questions) st = py.Ok st' →
  (st'.1 - st.1 = correct_count st'.2 - correct_count st.2)%Z
  ∧ length st.2 ≤ length st'.2 ≤ length st.2 + length answers.
Proof.
  revert st. induction answers as [|[index a] answers IH]; intros st; simpl.
  { intros [= <-]. lia. }
  unfold check_answer at 1. cbn [fst snd].
  destruct index as [index|]; [|intros Hrest%IH; lia].
  case_bool_decide; [|intros Hrest%IH; lia].
  destruct (py.getitem_int questions index) as [q|ex]; [|done]. simpl.
  intros Hrest. apply IH in Hrest. cbn [fst snd] in Hrest.
  unfold correct_count in *.
  rewrite filter_app, !length_app, filter_cons, filter_nil in Hrest.
  cbn [is_correct] in Hrest.
  destruct (py_eq a (answer q)); simpl in Hrest.
  - rewrite ?decide_True in Hrest by done. simpl in Hrest. lia.
  - rewrite ?decide_False in Hrest by done. simpl in Hrest. lia.
Qed.

Lemma getitem_int_wrap {A} (l : list A) (i : Z) :
  (- Z.of_nat (length l) ≤ i < Z.of_nat (length l))%Z →
  py.getitem_int l i = py.getitem l (Z.to_nat (i `mod` Z.of_nat (length l))).
Proof.
  intros Hi. unfold py.getitem_int. case_bool_decide.
  - by rewrite Z.mod_small by lia.
  - rewrite bool_decide_eq_true_2 by lia. f_equal. f_equal.
    apply Z.mod_unique with (q := (-1)%Z); lia.
Qed.


Lemma for_each_repeat questions i q a k (st : Z * list detail) :
  (- Z.of_nat (length questions) ≤ i < Z.of_nat (length questions))%Z →
  questions !! Z.to_nat (i `mod` Z.of_nat (length questions)) = Some q →
  py_eq a (answer q) = true →
  ∃ details,
    py.for_each (replicate k (Some i, a)) (check_answer py_eq questions) st
    = py.Ok ((st.1 + Z.of_nat k)%Z, details).
Proof.
  intros Hi Hq Ha. revert st. induction k as [|k IH]; intros st.
  { exists st.2. simpl. destruct st. f_equal. simpl. f_equal. lia. }
  cbn [replicate py.for_each]. unfold check_answer at 1. cbn [fst snd].
  rewrite bool_decide_eq_true_2 by lia.
  rewrite getitem_int_wrap by done.
  unfold py.getitem. rewrite Hq. simpl. rewrite Ha.
  destruct (IH ((st.1 + 1)%Z,
                st.2 ++ [ {| detail_question := question_text q; player_answer := a;
                             correct_answer := answer q; is_correct := true |} ]))
    as [details Hd].
  exists details. rewrite Hd. cbn [fst]. do 2 f_equal. lia.
Qed.



End quiz_facts.

(** When the scoring returns, the score is the number of entries of the
    details that are marked correct, and there are at most as many entries
    as submitted answers. *)
Theorem check_answers_counts_correct_details {value : Type} (py_eq : value → value → bool)
    (questions : list quiz.question) (answers : list (option Z * value))
    (score : Z) (total : nat) (details : list quiz.detail) :
  quiz.check_answers py_eq questions answers = py.Ok (score, total, details) →
  score = correct_count details
  ∧ (0 ≤ score ≤ Z.of_nat (length details))%Z
  ∧ length details ≤ length answers
  ∧ total = length questions.
Proof.
  unfold quiz.check_answers.
  destruct (py.for_each answers _ _) as [st|ex] eqn:E; [|done].
  simpl. intros [= <- <- <-].
  apply for_each_check_answer in E as [E1 E2]. cbn [fst snd] in *.
  unfold correct_count in *. simpl in *.
  pose proof (length_filter (λ d : quiz.detail, quiz.is_correct d = true) st.2).
  split_and!; try done; lia.
Qed.

(** The scoring does not check that a question is answered once: the right
    answer to one question, submitted [k] times, scores [k], whatever the
    number of questions. A negative index designates a question counted
    from the end. *)
Theorem check_answers_counts_repeats {value : Type} (py_eq : value → value → bool)
    (questions : list quiz.question) (i : Z) (q : quiz.question) (a : value) (k : nat) :
  (- Z.of_nat (length questions) ≤ i < Z.of_nat (length questions))%Z →
  questions !! Z.to_nat (i `mod` Z.of_nat (length questions)) = Some q →
  py_eq a (quiz.answer q) = true →
  ∃ details,
    quiz.check_answers py_eq questions (replicate k (Some i, a))
    = py.Ok (Z.of_nat k, length questions, details).
Proof.
  intros Hi Hq Ha.
  destruct (for_each_repeat py_eq questions i q a k (0%Z, []) Hi Hq Ha) as [details Hd].
  exists details. unfold quiz.check_answers. rewrite Hd. done.
Qed.


(* ===================================================================== *)
(** * Registration *)
(* ===================================================================== *)

Definition is_letter (c : N) : Prop := (65 ≤ c ≤ 90)%N ∨ (97 ≤ c ≤ 122)%N.

Section registration_facts.
Import database registration.

Lemma isspace_32 : py.isspace 32 = true.
Proof. done. Qed.

Lemma name_char_spec c :
  name_char c = true ↔ is_letter c ∨ c = 32%N.
Proof.
  unfold name_char, is_letter.
  rewrite !orb_true_iff, !bool_decide_eq_true. tauto.
Qed.

Lemma lstrip_head s c : head (py.lstrip s) = Some c → py.isspace c = false.
Proof.
  induction s as [|x s IH]; simpl; [done|].
  destruct (py.isspace x) eqn:E; [done|]. simpl. by intros [= <-].
Qed.

Lemma lstrip_suffix s : py.lstrip s `suffix_of` s.
Proof.
  induction s as [|x s IH]; simpl; [done|].
  destruct (py.isspace x); [by apply suffix_cons_r|done].
Qed.

Lemma lstrip_id s c : head s = Some c → py.isspace c = false → py.lstrip s = s.
Proof. destruct s as [|x s]; simpl; [done|]. intros [= ->] ->. done. Qed.

Lemma lstrip_nil_or_head s :
  py.lstrip s = [] ∨ ∃ c, head (py.lstrip s) = Some c ∧ py.isspace c = false.
Proof.
  destruct (py.lstrip s) as [|c r] eqn:E; [by left|right].
  exists c. split; [done|]. apply (lstrip_head s). by rewrite E.
Qed.

(** Neither end of a stripped list N is white space. *)
Lemma strip_ends s :
  (∀ c, head (py.strip s) = Some c → py.isspace c = false)
  ∧ (∀ c, last (py.strip s) = Some c → py.isspace c = false).
Proof.
  unfold py.strip. split; intros c.
  - rewrite head_reverse. intros Hlast.
    (* the last item of [py.lstrip (reverse (py.lstrip s))] is the last item of
       [reverse (py.lstrip s)], the head of [py.lstrip s] *)
    destruct (lstrip_suffix (reverse (py.lstrip s))) as [k Hk].
    assert (last (reverse (py.lstrip s)) = Some c) as Hl.
    { rewrite Hk. rewrite last_app. by rewrite Hlast. }
    rewrite last_reverse in Hl. by apply (lstrip_head s).
  - rewrite last_reverse. apply lstrip_head.
Qed.

Lemma name_match_letters s :
  (∀ c, last s = Some c → py.isspace c = false) →
  name_match s = true → s ≠ [] ∧ Forall (λ c, is_letter c ∨ c = 32%N) s.
Proof.
  intros Hlast. unfold name_match.
  assert (negb (bool_decide (s = [])) && forallb name_char s = true
          → s ≠ [] ∧ Forall (λ c, is_letter c ∨ c = 32%N) s) as Hplain.
  { rewrite andb_true_iff, negb_true_iff, bool_decide_eq_false.
    intros [? Hall]. split; [done|].
    apply Forall_forall. intros c Hc. apply name_char_spec.
    rewrite forallb_forall in Hall. apply Hall. by apply list_elem_of_In. }
  destruct (reverse s) as [|c rest] eqn:E; [apply Hplain|].
  assert (last s = Some c) as Hc.
  { rewrite <-(reverse_involutive s), E, last_reverse. done. }
  apply Hlast in Hc.
  destruct c as [|p]; [apply Hplain|].
  destruct (decide (p = 10%positive)) as [->|Hne]; [done|].
  repeat (destruct p as [p|p|]; try apply Hplain; try done).
Qed.


(** A user name the registration endpoint accepts, for a new or a
    returning player, is the submitted list N without the white space at its
    ends; it has at least three characters, all of them ASCII letters or
    spaces, and it begins and ends with a letter. *)
Theorem registered_name_is_clean (uuid4 : string) (username : list N)
    (cfg : option config.config) (d : db)
    (message pid name : string) (returning : bool) (total : Z) (next : string)
    (completed : list string) (countdown : Z) :
  (register_player_endpoint uuid4 username cfg d).1
  = register_ok message pid name returning total next completed countdown →
  name = encode (py.strip username)
  ∧ 3 ≤ length (py.strip username)
  ∧ Forall (λ c, is_letter c ∨ c = 32%N) (py.strip username)
  ∧ (∃ c, head (py.strip username) = Some c ∧ is_letter c)
  ∧ (∃ c, last (py.strip username) = Some c ∧ is_letter c).
Proof.
  unfold register_player_endpoint. cbv zeta.
  pose proof (strip_ends username) as [Hhead Hlast].
  set (s := py.strip username) in *.
  case_bool_decide as Hnil; [done|].
  case_bool_decide as Hlen; [done|]. cbn [orb].
  destruct (name_match s) eqn:Hm; [|done]. cbn [negb].
  apply name_match_letters in Hm as [_ Hall]; [|done].
  intros Hresp.
  assert (name = encode s) as ->.
  { destruct (get_player_by_username (encode s) d).
    - cbn [fst] in Hresp. by injection Hresp.
    - destruct (register_player uuid4 (encode s) d) as [[err|] d'];
        cbn [fst] in Hresp; [done|by injection Hresp]. }
  split; [done|]. split; [lia|]. split; [done|].
  rewrite Forall_forall in Hall. split.
  - destruct s as [|c s'] eqn:Es; [done|]. exists c. split; [done|].
    destruct (Hall c) as [Hletter|Hsp]; [by left|done|].
    subst c. by specialize (Hhead 32%N eq_refl).
  - destruct (last s) as [c|] eqn:El.
    + exists c. split; [done|].
      destruct (Hall c) as [Hletter|Hsp]; [by eapply last_Some_elem_of|done|].
      subst c. by specialize (Hlast 32%N eq_refl).
    + apply last_None in El. done.
Qed.

(** Registering a name that the [players] table already holds resumes that
    player: the answer carries the stored identifier and total and the
    player's progress, no player is created and the database is unchanged.
    A name the table does not hold is registered under the identifier just
    drawn, with total 0 and level_1 as the next level, when that identifier
    is free. *)
Theorem register_resumes_or_creates (uuid4 : string) (username : list N)
    (cfg : option config.config) (d : db) :
  unique_usernames d →
  3 ≤ length (py.strip username) →
  name_match (py.strip username) = true →
  let name := encode (py.strip username) in
  let r := register_player_endpoint uuid4 username cfg d in
  (∀ pid total, players d !! pid = Some (name, total) →
     r = (register_ok "Welcome back! Resuming your game." pid name true total
            (get_player_progress pid d).2 (get_player_progress pid d).1
            (config.get_countdown_time cfg), d))
  ∧ ((∀ pid total, players d !! pid ≠ Some (name, total)) →
     players d !! uuid4 = None →
     r.1 = register_ok "Player registered successfully" uuid4 name false 0 "level_1" []
             (config.get_countdown_time cfg)
     ∧ players r.2 = <[uuid4 := (name, 0%Z)]> (players d)
     ∧ scores r.2 = scores d
     ∧ (register_player_endpoint uuid4 username cfg r.2).1
       = register_ok "Welcome back! Resuming your game." uuid4 name true 0
           (get_player_progress uuid4 d).2 (get_player_progress uuid4 d).1
           (config.get_countdown_time cfg)).
Proof.
  intros Hu Hlen Hm name r.
  assert (∀ d', register_player_endpoint uuid4 username cfg d'
          = match get_player_by_username name d' with
            | Some existing_player =>
                (register_ok "Welcome back! Resuming your game."
                   (player_id existing_player) name true (total_score existing_player)
                   (get_player_progress (player_id existing_player) d').2
                   (get_player_progress (player_id existing_player) d').1
                   (config.get_countdown_time cfg), d')
            | None =>
                match register_player uuid4 name d' with
                | (Some error, d'') =>
                    (register_error (if bool_decide (error = EmptyString)
                                     then "Registration failed" else error), d'')
                | (None, d'') =>
                    (register_ok "Player registered successfully" uuid4 name false 0
                       "level_1" [] (config.get_countdown_time cfg), d'')
                end
            end) as Hbody.
  { intros d'. unfold register_player_endpoint. fold name.
    rewrite bool_decide_eq_false_2 by (intros E; rewrite E in Hlen; simpl in Hlen; lia).
    rewrite bool_decide_eq_false_2 by lia.
    rewrite Hm. done. }
  split.
  - intros pid total Hp. subst r. rewrite Hbody.
    assert (get_player_by_username name d
            = Some {| player_id := pid; username := name; total_score := total |}) as ->.
    { by apply get_player_by_username_Some. }
    done.
  - intros Hfree Hid.
    assert (get_player_by_username name d = None) as Hnone
      by by apply get_player_by_username_None.
    assert (register_player uuid4 name d
            = (None, {| players := <[uuid4 := (name, 0%Z)]> (players d);
                        scores := scores d |})) as Hreg.
    { unfold register_player.
      rewrite bool_decide_eq_false_2.
      2:{ intros (p & t & Hp)%username_taken. by eapply Hfree. }
      rewrite bool_decide_eq_false_2 by (rewrite Hid; by intros [? ?]).
      done. }
    subst r. rewrite Hbody, Hnone, Hreg. cbn [fst snd players scores].
    split_and!; try done.
    rewrite Hbody.
    pose proof (register_player_unique uuid4 name d Hu) as Hu'.
    rewrite Hreg in Hu'. cbn [snd] in Hu'.
    assert (get_player_by_username name
              {| players := <[uuid4 := (name, 0%Z)]> (players d); scores := scores d |}
            = Some {| player_id := uuid4; username := name; total_score := 0 |}) as ->.
    { apply get_player_by_username_Some; [done|]. split; [done|].
      simpl. by rewrite lookup_insert_eq. }
    done.
Qed.

End registration_facts.

(* ===================================================================== *)
(** * The further properties at the concrete server *)
(* ===================================================================== *)

Section further_example_facts.
Import example.

Lemma fetched_session :
  find_session token fetched = Some (sid0, session_of fetched)
  ∧ game_sessions (registry fetched) !! sid0 = Some (session_of fetched).
Proof. apply session_of_found. vm_compute. reflexivity. Qed.

Lemma fetched_image : current_image_name (session_of fetched) = Some "a.jpg".
Proof. vm_compute. reflexivity. Qed.

Lemma fetched_level : current_level (session_of fetched) = Some "level_1".
Proof. vm_compute. reflexivity. Qed.

Lemma fetched_grid : config.get_grid_size (config_file fetched) = 2%Z.
Proof. vm_compute. reflexivity. Qed.

(** A database with no player and no score. *)
Definition no_players : database.db :=
  {| database.players := ∅; database.scores := [] |}.

Lemma unique_usernames_empty : unique_usernames no_players.
Proof. intros p1 p2 u t1 t2 H. unfold no_players in H. simpl in H. by rewrite lookup_empty in H. Qed.

(** A catalog that lacks the level of a new session. *)
Definition env_without_level_1 : env :=
  {| image_metadata := [("level_2", ["b.jpg"])];
     ADMIN_PASSWORD := "secret";
     pil := pil0 |}.

(** One question, and the comparison of answers that are strings. *)
Definition one_question : list (@quiz.question string) :=
  [ {| quiz.question_text := "Is this an X-ray?"; quiz.answer := "yes" |} ].

Definition string_eq (a b : string) : bool := bool_decide (a = b).

(** The text ["  Ann B\n"]. *)
Definition ann_b : list N := [32; 32; 65; 110; 110; 32; 66; 10]%N.

End further_example_facts.

(** The registry of the example after the first request. *)
Lemma sessions_and_timeouts_in_step_witness :
  is_Some (game_sessions (registry example.fetched) !! example.sid0)
  ↔ is_Some (session_timeouts (registry example.fetched) !! example.sid0).
Proof.
  exact (sessions_and_timeouts_in_step example.fetched example.sid0 reachable_fetched).
Defined.

(** A first request without a token, on an empty registry. *)
Lemma create_lookup_clear_witness :
  let r0 := {| game_sessions := ∅; session_timeouts := ∅ |} in
  let res := get_or_create_session 0 example.sid0 None r0 in
  get_session res.1 res.2 = Some new_session
  ∧ get_session res.1 (clear_session res.1 res.2) = None
  ∧ session_timeouts (clear_session res.1 res.2) !! res.1 = None
  ∧ ∀ other, other ≠ res.1 →
      get_session other (clear_session res.1 res.2) = get_session other r0
      ∧ session_timeouts (clear_session res.1 res.2) !! other = session_timeouts r0 !! other.
Proof.
  apply (create_lookup_clear 0 example.sid0 None
           {| game_sessions := ∅; session_timeouts := ∅ |}).
  reflexivity.
Defined.

(** The administrator of the example sets a 3 x 3 grid. *)
Lemma config_changes_need_password_witness :
  ∃ g c, POST_admin_config (Some 3%Z) None "secret"
         = POST_admin_config g c (ADMIN_PASSWORD example.env0).
Proof.
  apply (config_changes_need_password example.env0 example.inputs0
           (POST_admin_config (Some 3%Z) None "secret") example.start0).
  vm_compute. discriminate.
Defined.

(** A request for an 11 x 11 grid on the example, configured for 2 x 2. *)
Lemma grid_size_stays_in_range_witness :
  (2 ≤ config.get_grid_size
         (config_file (handle example.env0 example.inputs0
                         (POST_admin_config (Some 11%Z) None "secret")
                         example.start0).2) ≤ 10)%Z.
Proof.
  apply grid_size_stays_in_range. vm_compute. split; discriminate.
Defined.

(** Grid size 5 together with a countdown of 61 seconds. *)
Lemma config_update_is_not_atomic_witness :
  let r := update_config example.env0 (Some 5%Z) (Some 61%Z)
             (ADMIN_PASSWORD example.env0) example.start0 in
  r.1 = error_response 400 "Countdown time must be between 0 and 60 seconds"
  ∧ config.get_grid_size (config_file r.2) = 5%Z
  ∧ config.get_countdown_time (config_file r.2)
    = config.get_countdown_time (config_file example.start0)
  ∧ registry r.2 = registry example.start0.
Proof.
  apply (config_update_is_not_atomic example.env0 5 61 example.start0); lia.
Defined.

(** The shuffle of the example. *)
Lemma shuffle_image_result_witness :
  let g := config.get_grid_size (config_file example.fetched) in
  let n := Z.to_nat g in
  let p := Z.to_nat (512 `div` g) in
  let img := resize_L (pil example.env0) example.picture (Z.to_nat (512 `div` g * g)) in
  let path := temp_name "app/static/images/temp/" "shuffled" example.sid0
                (Some "level_1") 1000000 in
  let r := shuffle_image example.env0 1000000 (λ i, i + 1) example.token example.fetched in
  ∃ tiles R s',
    r.1 = shuffle_response
            (temp_name "/static/images/temp/" "shuffled" example.sid0
               (Some "level_1") 1000000) g
    ∧ np.to_patches img p = py.Ok tiles
    ∧ game_sessions (registry r.2) !! example.sid0 = Some s'
    ∧ arrangement s'
      = (Some (seq 0 (n * n)), Some (py.random_shuffle (λ i, i + 1) (seq 0 (n * n))),
         Some tiles)
    ∧ current_level s' = Some "level_1"
    ∧ current_image_name s' = Some "a.jpg"
    ∧ start_time s' = start_time (example.session_of example.fetched)
    ∧ current_shuffled_image_path s' = Some path
    ∧ temp_images r.2 !! path = Some (1000000%Z, R)
    ∧ shows n p (py.random_shuffle (λ i, i + 1) (seq 0 (n * n))) img R.
Proof.
  apply (shuffle_image_result example.env0 1000000 (λ i, i + 1) example.token
           example.fetched example.sid0 (example.session_of example.fetched)
           "a.jpg" "level_1" ["a.jpg"] example.picture).
  - exact (proj1 fetched_session).
  - exact fetched_image.
  - exact fetched_level.
  - reflexivity.
  - apply list_elem_of_here.
  - reflexivity.
  - rewrite fetched_grid. lia.
Defined.


(** The first request of the example. *)
Lemma get_image_result_witness :
  let r := get_image example.env0 1000000 example.sid0 0 None example.start0 in
  ∃ s level images name,
    game_sessions (registry r.2) !! example.sid0 = Some s
    ∧ session_timeouts (registry r.2) !! example.sid0 = Some (1000000 + 60 * 60 * 1000000)%Z
    ∧ current_level s = Some level
    ∧ level_data (image_metadata example.env0) level = Some images
    ∧ name ∈ images
    ∧ current_image_name s = Some name
    ∧ "/static/images/level_1/a.jpg" = "/static/images/" +:+ level +:+ "/" +:+ name
    ∧ is_Some (files (pil example.env0) ("app/static/images/" +:+ level +:+ "/" +:+ name))
    ∧ start_time s = Some 1000000%Z
    ∧ (example.sid0 = example.sid0 ∨ None = Some example.sid0).
Proof.
  apply (get_image_result example.env0 1000000 example.sid0 0 None example.start0
           "/static/images/level_1/a.jpg" 1000000 example.sid0).
  vm_compute. reflexivity.
Defined.

(** The client of the example moves from level 1 to level 2. *)
Lemma next_level_advances_witness :
  let r := next_level example.env0 example.token example.fetched in
  r.1 = level_response "Progressed to the next level" (Some "level_2")
  ∧ game_sessions (registry r.2) !! example.sid0
    = Some {| original_positions := None; shuffled_positions := None; patches := None;
              current_level := Some "level_2"; current_image_name := None;
              start_time := None; current_shuffled_image_path := None |}
  ∧ (validate_puzzle example.token r.2).1 = error_response 400 "No puzzle to validate"
  ∧ (swap_patches example.env0 5 0 1 example.token r.2).1
    = error_response 400 "No puzzle to swap"
  ∧ (shuffle_image example.env0 5 (λ i, i) example.token r.2).1
    = error_response 400 "No image selected. Please load an image first.".
Proof.
  apply (next_level_advances example.env0 5 (λ i, i) 0 1 example.token example.fetched
           example.sid0 (example.session_of example.fetched) "level_1" "level_2" 0).
  - exact (proj1 fetched_session).
  - exact fetched_level.
  - reflexivity.
  - reflexivity.
Defined.

(** The same client when the catalog has no "level_1". *)
Lemma next_level_from_unknown_level_witness :
  (next_level env_without_level_1 example.token example.fetched).1
  = level_response "Progressed to the next level" (Some "level_2")
  ∧ current_level
      <$> game_sessions
            (registry (next_level env_without_level_1 example.token example.fetched).2)
            !! example.sid0
    = Some (Some "level_2").
Proof.
  apply (next_level_from_unknown_level env_without_level_1 example.token example.fetched
           example.sid0 (example.session_of example.fetched)).
  - exact (proj1 fetched_session).
  - rewrite fetched_level. reflexivity.
Defined.


(** The first player of a database. *)
Lemma register_player_spec_witness :
  let r := database.register_player "p1" "alice" no_players in
  match r.1 with
  | None =>
      database.get_player_by_username "alice" no_players = None
      ∧ database.players no_players !! "p1" = None
      ∧ database.get_player_by_username "alice" r.2
        = Some {| database.player_id := "p1"; database.username := "alice";
                  database.total_score := 0 |}
      ∧ database.scores r.2 = database.scores no_players
      ∧ (∀ other, other ≠ "p1" →
           database.players r.2 !! other = database.players no_players !! other)
  | Some err =>
      r.2 = no_players
      ∧ (err = "Username already exists"
         ↔ is_Some (database.get_player_by_username "alice" no_players))
  end.
Proof.
  exact (register_player_spec "p1" "alice" no_players unique_usernames_empty).
Defined.


(** One right answer on level 1, for a player who is not registered. *)
Lemma saved_level_is_completed_witness :
  ∃ p l,
    Some "p1" = Some p ∧ Some "level_1" = Some l ∧ l ∈ database.all_levels
    ∧ let progress :=
        database.get_player_progress p
          (main.save_score 7 (Some "p1") (Some "level_1") (Some 1%Z) no_players).2 in
      l ∈ progress.1
      ∧ (progress.2 = l → ∀ l', l' ∈ database.all_levels → l' ∈ progress.1).
Proof.
  apply (saved_level_is_completed 7 (Some "p1") (Some "level_1") (Some 1%Z) no_players 0).
  vm_compute. reflexivity.
Defined.

(** A right and a wrong answer to the one question. *)
Lemma check_answers_counts_correct_details_witness :
  let details :=
    [ {| quiz.detail_question := "Is this an X-ray?"; quiz.player_answer := "yes";
         quiz.correct_answer := "yes"; quiz.is_correct := true |};
      {| quiz.detail_question := "Is this an X-ray?"; quiz.player_answer := "no";
         quiz.correct_answer := "yes"; quiz.is_correct := false |} ] in
  1%Z = correct_count details
  ∧ (0 ≤ 1 ≤ Z.of_nat (length details))%Z
  ∧ length details ≤ length [(Some 0%Z, "yes"); (Some 0%Z, "no")]
  ∧ 1 = length one_question.
Proof.
  apply (check_answers_counts_correct_details string_eq one_question
           [(Some 0%Z, "yes"); (Some 0%Z, "no")] 1 1).
  vm_compute. reflexivity.
Defined.

(** The right answer to the one question, sent five times under index -1. *)
Lemma check_answers_counts_repeats_witness :
  ∃ details,
    quiz.check_answers string_eq one_question (replicate 5 (Some (-1)%Z, "yes"))
    = py.Ok (Z.of_nat 5, length one_question, details).
Proof.
  apply (check_answers_counts_repeats string_eq one_question (-1)
           {| quiz.question_text := "Is this an X-ray?"; quiz.answer := "yes" |} "yes" 5).
  - simpl. lia.
  - reflexivity.
  - reflexivity.
Defined.

(** The name ["  Ann B\n"] is registered as ["Ann B"]. *)
Lemma registered_name_is_clean_witness :
  "Ann B" = registration.encode (py.strip ann_b)
  ∧ 3 ≤ length (py.strip ann_b)
  ∧ Forall (λ c, is_letter c ∨ c = 32%N) (py.strip ann_b)
  ∧ (∃ c, head (py.strip ann_b) = Some c ∧ is_letter c)
  ∧ (∃ c, last (py.strip ann_b) = Some c ∧ is_letter c).
Proof.
  apply (registered_name_is_clean "p1" ann_b None no_players
           "Player registered successfully" "p1" "Ann B" false 0 "level_1" [] 3).
  vm_compute. reflexivity.
Defined.

(** The same name, registered twice. *)
Lemma register_resumes_or_creates_witness :
  let name := registration.encode (py.strip ann_b) in
  let r := registration.register_player_endpoint "p1" ann_b None no_players in
  (∀ pid total, database.players no_players !! pid = Some (name, total) →
     r = (registration.register_ok "Welcome back! Resuming your game." pid name true total
            (database.get_player_progress pid no_players).2
            (database.get_player_progress pid no_players).1
            (config.get_countdown_time None), no_players))
  ∧ ((∀ pid total, database.players no_players !! pid ≠ Some (name, total)) →
     database.players no_players !! "p1" = None →
     r.1 = registration.register_ok "Player registered successfully" "p1" name false 0
             "level_1" [] (config.get_countdown_time None)
     ∧ database.players r.2 = <["p1" := (name, 0%Z)]> (database.players no_players)
     ∧ database.scores r.2 = database.scores no_players
     ∧ (registration.register_player_endpoint "p1" ann_b None r.2).1
       = registration.register_ok "Welcome back! Resuming your game." "p1" name true 0
           (database.get_player_progress "p1" no_players).2
           (database.get_player_progress "p1" no_players).1
           (config.get_countdown_time None)).
Proof.
  apply (register_resumes_or_creates "p1" ann_b None no_players).
  - exact unique_usernames_empty.
  - vm_compute. lia.
  - reflexivity.
Defined.
